(** * Background grayscale pipeline: compositor, segmentation session
      manager and frame scheduler

    A shallow embedding of
    - [utils/effectsProcessor.ts]   (the mask compositor),
    - [hooks/useSegmentation.ts]    (the segmentation session manager),
    - [components/BackgroundFilteredVideo.tsx] (the frame scheduler),
    with JavaScript numbers as IEEE-754 binary64 values (Rocq's primitive
    floats), [Uint8ClampedArray]s as lists of bytes, and the [useRef] cells
    of the two React components as fields of explicit state records. *)

From Stdlib Require Import ZArith Floats.
From Stdlib.Strings Require Import Byte.
From stdpp Require Import gmap list.

Set Warnings "-inexact-float".

(** ** JavaScript numbers and typed-array elements *)

Module JS.

(** A [Uint8ClampedArray] element read back as a JavaScript number. *)
Definition byte_to_Z (b : byte) : Z := Z.of_N (Byte.to_N b).

Definition byte_to_float (b : byte) : float :=
  PrimFloat.of_uint63 (Uint63.of_Z (byte_to_Z b)).

Definition byte_of_Z (z : Z) : byte :=
  match Byte.of_N (Z.to_N z) with
  | Some b => b
  | None => xff
  end.

(** [ToNumber] of an indexed read: an index past the end of a typed array
    reads [undefined], which arithmetic and comparisons turn into NaN. *)
Definition toNumber (v : option byte) : float :=
  match v with
  | Some b => byte_to_float b
  | None => nan
  end.

(** Nearest integer to [m * 2^e] (with [m > 0]), ties to even. *)
Definition round_half_even (m : positive) (e : Z) : Z :=
  if (0 <=? e)%Z then (Z.pos m * 2 ^ e)%Z
  else
    let d := (2 ^ (- e))%Z in
    let q := (Z.pos m / d)%Z in
    let r := (Z.pos m mod d)%Z in
    match (2 * r ?= d)%Z with
    | Lt => q
    | Gt => (q + 1)%Z
    | Eq => if Z.even q then q else (q + 1)%Z
    end.

(** ECMAScript [ToUint8Clamp]: the conversion applied by every store into a
    [Uint8ClampedArray].  NaN becomes 0, the value is clamped to [0, 255]
    and rounded to the nearest integer, ties to even. *)
Definition ToUint8Clamp (x : float) : byte :=
  if is_nan x then x00
  else if (x <=? 0)%float then x00
  else if (255 <=? x)%float then xff
  else
    match Prim2SF x with
    | S754_finite _ m e => byte_of_Z (round_half_even m e)
    | _ => x00
    end.

End JS.

(** ** effectsProcessor.ts, on values *)

Module Effects.
Import JS.

Record ProcessingOptions := {
  threshold : option float;
  useWeightedGrayscale : option bool
}.

(** The empty options object [{}], the default of the third parameter. *)
Definition no_options : ProcessingOptions :=
  {| threshold := None; useWeightedGrayscale := None |}.

Definition DEFAULT_THRESHOLD : float := 255%float.

Record ImageData := {
  width : N;
  height : N;
  data : list byte
}.

(** [new ImageData(data, sw, sh)]: the constructor raises (here: [None])
    unless [sw] is nonzero, the length of [data] is a nonzero multiple of
    four, and the pixel count is [sw * sh]. *)
Definition new_ImageData (d : list byte) (sw sh : N) : option ImageData :=
  let len := N.of_nat (length d) in
  if (sw =? 0)%N then None
  else if (len =? 0)%N then None
  else if negb (len mod 4 =? 0)%N then None
  else if negb ((len / 4) mod sw =? 0)%N then None
  else if negb ((len / 4) / sw =? sh)%N then None
  else Some {| width := sw; height := sh; data := d |}.

(** The two grayscale formulas of the loop body, on JavaScript numbers. *)
Definition grayValue (weighted : bool) (r g b : float) : float :=
  if weighted then (0.299 * r + 0.587 * g + 0.114 * b)%float
  else ((r + g + b) / 3)%float.

(** One iteration of the loop body at index [i]. *)
Definition grayscaleStep (i : nat) (frameData maskData : list byte)
    (thr : float) (weighted : bool) : list byte :=
  let maskValue := toNumber (maskData !! i) in
  if (maskValue <? thr)%float then
    let r := toNumber (frameData !! i) in
    let g := toNumber (frameData !! (i + 1)) in
    let b := toNumber (frameData !! (i + 2)) in
    let gray := ToUint8Clamp (grayValue weighted r g b) in
    <[i + 2 := gray]> (<[i + 1 := gray]> (<[i := gray]> frameData))
  else frameData.

(** [for (let i = ..; i < frameData.length; i += 4) { ... }].  The fuel
    bounds the number of iterations; [grayscaleLoop_fuel] below shows that
    [length frameData] iterations always reach the loop's own exit test. *)
Fixpoint grayscaleLoop (fuel i : nat) (frameData maskData : list byte)
    (thr : float) (weighted : bool) : list byte :=
  match fuel with
  | O => frameData
  | S fuel' =>
      if decide (i < length frameData) then
        grayscaleLoop fuel' (i + 4)
          (grayscaleStep i frameData maskData thr weighted)
          maskData thr weighted
      else frameData
  end.

Definition applyGrayscaleToBackground
    (originalFrame segmentationMask : ImageData)
    (options : ProcessingOptions) : option ImageData :=
  let thr := default DEFAULT_THRESHOLD (threshold options) in
  let weighted := default false (useWeightedGrayscale options) in
  processedFrame ← new_ImageData (data originalFrame)
                      (width originalFrame) (height originalFrame);
  let frameData := data processedFrame in
  let maskData := data segmentationMask in
  Some {| width := width processedFrame;
          height := height processedFrame;
          data := grayscaleLoop (length frameData) 0 frameData maskData
                    thr weighted |}.

Definition areCompatibleDimensions (imageData1 imageData2 : ImageData) : bool :=
  (width imageData1 =? width imageData2)%N &&
  (height imageData1 =? height imageData2)%N.

(** The [ImageData] invariant: nonzero dimensions and four bytes per
    pixel, as the constructor enforces. *)
Definition wf_ImageData (img : ImageData) : bool :=
  negb (width img =? 0)%N && negb (height img =? 0)%N &&
  (N.of_nat (length (data img)) =? 4 * (width img * height img))%N.

(** What the loop leaves at index [j] of a buffer [fd]: the gray value of
    the pixel starting at [j - j mod 4] when that pixel's mask sample is
    below the threshold and [j] is one of its first three channels, and
    the old element otherwise. *)
Definition pixelOut (maskData : list byte) (thr : float) (weighted : bool)
    (fd : list byte) (j : nat) : option byte :=
  let p := j - j mod 4 in
  if (toNumber (maskData !! p) <? thr)%float && (j mod 4 <? 3)
     && (j <? length fd)
  then Some (ToUint8Clamp (grayValue weighted (toNumber (fd !! p))
                             (toNumber (fd !! (p + 1)))
                             (toNumber (fd !! (p + 2)))))
  else fd !! j.

(** The record the compositor returns on a well-formed frame (see
    [applyGrayscaleToBackground_wf]). *)
Definition composite_once (f m : ImageData) (o : ProcessingOptions)
    : ImageData :=
  {| width := width f; height := height f;
     data := grayscaleLoop (length (data f)) 0 (data f) (data m)
               (default DEFAULT_THRESHOLD (threshold o))
               (default false (useWeightedGrayscale o)) |}.

End Effects.


(** ** effectsProcessor.ts, on a store of typed arrays

    The same function with the [Uint8ClampedArray]s held in a store, so
    that the clone, the in-place writes of the loop and any aliasing
    between the arguments are explicit. *)

Module Store.
Import JS.

Definition loc := positive.

(** An [ImageData] object: its [data] field refers to a typed array. *)
Record ImageData := {
  data : loc;
  width : N;
  height : N
}.

Section WithStore.
Implicit Types (h : gmap loc (list byte)) (a : loc) (i : nat).

Definition contents h a : list byte := default [] (h !! a).

(** [a[i]]: [undefined] (here [None]) past the end. *)
Definition read h a i : option byte := contents h a !! i.

(** [a[i] = v]: a store past the end of a typed array is ignored. *)
Definition write h a i (v : byte) : gmap loc (list byte) :=
  match h !! a with
  | Some l => <[a := <[i := v]> l]> h
  | None => h
  end.

(** [new Uint8ClampedArray(bytes)]: a fresh array holding a copy. *)
Definition alloc h (bytes : list byte) : loc * gmap loc (list byte) :=
  let a := fresh (dom h) in (a, <[a := bytes]> h).

(** [new ImageData(array, sw, sh)], with the constructor's checks. *)
Definition new_ImageData h a (sw sh : N) : option ImageData :=
  let len := N.of_nat (length (contents h a)) in
  if (sw =? 0)%N then None
  else if (len =? 0)%N then None
  else if negb (len mod 4 =? 0)%N then None
  else if negb ((len / 4) mod sw =? 0)%N then None
  else if negb ((len / 4) / sw =? sh)%N then None
  else Some {| data := a; width := sw; height := sh |}.

Definition grayscaleStep h i (frameData maskData : loc) (thr : float)
    (weighted : bool) : gmap loc (list byte) :=
  let maskValue := toNumber (read h maskData i) in
  if (maskValue <? thr)%float then
    let r := toNumber (read h frameData i) in
    let g := toNumber (read h frameData (i + 1)) in
    let b := toNumber (read h frameData (i + 2)) in
    let gray := ToUint8Clamp (Effects.grayValue weighted r g b) in
    write (write (write h frameData i gray) frameData (i + 1) gray)
      frameData (i + 2) gray
  else h.

Fixpoint grayscaleLoop (fuel i : nat) h (frameData maskData : loc)
    (thr : float) (weighted : bool) : gmap loc (list byte) :=
  match fuel with
  | O => h
  | S fuel' =>
      if decide (i < length (contents h frameData)) then
        grayscaleLoop fuel' (i + 4)
          (grayscaleStep h i frameData maskData thr weighted)
          frameData maskData thr weighted
      else h
  end.

(** The call returns the new store and the new object, or raises. *)
Definition applyGrayscaleToBackground h
    (originalFrame segmentationMask : ImageData)
    (options : Effects.ProcessingOptions)
    : option (gmap loc (list byte) * ImageData) :=
  let thr :=
    default Effects.DEFAULT_THRESHOLD (Effects.threshold options) in
  let weighted := default false (Effects.useWeightedGrayscale options) in
  let '(copy, h1) := alloc h (contents h (data originalFrame)) in
  processedFrame ← new_ImageData h1 copy
                      (width originalFrame) (height originalFrame);
  let frameData := data processedFrame in
  let maskData := data segmentationMask in
  Some (grayscaleLoop (length (contents h1 frameData)) 0 h1
          frameData maskData thr weighted,
        processedFrame).

(** The value an [ImageData] object denotes in a store. *)
Definition value h (img : ImageData) : Effects.ImageData :=
  {| Effects.width := width img; Effects.height := height img;
     Effects.data := contents h (data img) |}.

End WithStore.
End Store.

(** ** hooks/useSegmentation.ts: the segmentation session manager *)

Module Segmentation.

(** What the provider hands to the results callback. *)
Record Results := {
  segmentationMask : option Effects.ImageData
}.

(** The hook's [useRef] cells and its [isModelLoaded] state.  A [bool]
    stands for "the cell holds an object" where only that is tested; the
    session id is a JavaScript number. *)
Record state := {
  segmentationRef : bool;
  isModelLoaded : bool;
  canvasRef : bool;
  latestResultRef : option Effects.ImageData;
  sessionIdRef : float;
  isProcessingEnabledRef : bool
}.

(** The cells as [useRef] and [useState] initialise them. *)
Definition mounted : state :=
  {| segmentationRef := false; isModelLoaded := false; canvasRef := false;
     latestResultRef := None; sessionIdRef := 0%float;
     isProcessingEnabledRef := true |}.

(** [initializeSegmentation], when the provider loads. *)
Definition initializeSegmentation (s : state) : state :=
  {| segmentationRef := true; isModelLoaded := true; canvasRef := true;
     latestResultRef := latestResultRef s; sessionIdRef := sessionIdRef s;
     isProcessingEnabledRef := isProcessingEnabledRef s |}.

Definition set_latestResultRef (v : option Effects.ImageData) (s : state)
    : state :=
  {| segmentationRef := segmentationRef s; isModelLoaded := isModelLoaded s;
     canvasRef := canvasRef s; latestResultRef := v;
     sessionIdRef := sessionIdRef s;
     isProcessingEnabledRef := isProcessingEnabledRef s |}.

Definition set_sessionIdRef (n : float) (s : state) : state :=
  {| segmentationRef := segmentationRef s; isModelLoaded := isModelLoaded s;
     canvasRef := canvasRef s; latestResultRef := latestResultRef s;
     sessionIdRef := n;
     isProcessingEnabledRef := isProcessingEnabledRef s |}.

Definition set_isProcessingEnabledRef (b : bool) (s : state) : state :=
  {| segmentationRef := segmentationRef s; isModelLoaded := isModelLoaded s;
     canvasRef := canvasRef s; latestResultRef := latestResultRef s;
     sessionIdRef := sessionIdRef s; isProcessingEnabledRef := b |}.

(** The callback registered with [onResults].  [ctx] tells whether the
    canvas yields a 2d context; the [ImageData] read back from the canvas
    is the mask that was drawn onto it, at the mask's dimensions. *)
Definition onResults (ctx : bool) (results : Results) (s : state) : state :=
  if negb (isProcessingEnabledRef s) then s
  else
    match segmentationMask results with
    | Some mask =>
        if negb (canvasRef s) then s
        else if negb ctx then s
        else set_latestResultRef (Some mask) s
    | None => s
    end.

(** [processFrame] up to its [await]: whether the frame is sent to the
    provider ([false]: the call returns [null] at once). *)
Definition processFrame_send (s : state) : bool :=
  segmentationRef s && isModelLoaded s.

(** [processFrame] after its [await]: the value it returns, given whether
    [send] resolved ([sendOk]) or threw into the [catch]. *)
Definition processFrame_return (sendOk : bool) (s : state)
    : option Effects.ImageData :=
  if sendOk then latestResultRef s else None.

Definition cleanup (s : state) : state :=
  {| segmentationRef := false; isModelLoaded := isModelLoaded s;
     canvasRef := false; latestResultRef := None;
     sessionIdRef := sessionIdRef s; isProcessingEnabledRef := false |}.

(** [reset]: [sessionIdRef.current += 1] is an addition of JavaScript
    numbers. *)
Definition reset (s : state) : state :=
  set_sessionIdRef (sessionIdRef s + 1)%float
    (set_latestResultRef None (set_isProcessingEnabledRef false s)).

Definition enable (s : state) : state :=
  set_latestResultRef None (set_isProcessingEnabledRef true s).

(** What can happen to the manager, in the order a trace lists it. *)
Inductive event :=
| Send
| Callback (ctx : bool) (results : Results)
| Reset
| Enable
| Cleanup.

Definition step (s : state) (ev : event) : state :=
  match ev with
  | Send => s
  | Callback ctx results => onResults ctx results s
  | Reset => reset s
  | Enable => enable s
  | Cleanup => cleanup s
  end.

Definition run (s : state) (trace : list event) : state :=
  fold_left step trace s.


Definition is_Reset (ev : event) : bool :=
  match ev with Reset => true | _ => false end.

End Segmentation.

(** ** components/BackgroundFilteredVideo.tsx: the frame scheduler *)

Module Scheduler.
Import JS.

(** The argument of [onStatsUpdate]. *)
Record ProcessingStats := {
  fps : float;
  processingTime : float
}.

(** What a call leaves on the visible canvas.  [setTransform(1,0,0,1,0,0)]
    resets the transform to the identity, which no path of the component
    ever changes, and is left out. *)
Inductive canvasOp :=
| ClearRect
| DrawImage (video : Effects.ImageData)
| PutImageData (processedFrame : Effects.ImageData).

(** A call of [processVideoFrame] suspended at its [await]: the locals it
    resumes with, and whether [processFrame] sent the frame to the
    provider or returned [null] at once. *)
Record suspended := {
  frameData : Effects.ImageData;
  startTime : float;
  sent : bool
}.

(** The component's [useRef] cells, the cells of its [useSegmentation]
    hook, and what the component has done to its surroundings: the
    animation-frame handles it was given, the calls waiting at their
    [await], the operations on the visible canvas (latest first), the
    [onStatsUpdate] calls (latest first) and the number of [console.error]
    calls of the [catch]. *)
Record state := {
  animationFrameRef : option nat;
  lastFrameTimeRef : float;
  fpsCounterRef : list float;
  isProcessingActiveRef : bool;
  isFrameProcessingRef : bool;
  seg : Segmentation.state;
  nextHandle : nat;
  pending : list suspended;
  canvas : list canvasOp;
  stats : list ProcessingStats;
  errors : nat
}.

(** The cells as [useRef] initialises them, around a segmentation hook in
    state [sg]. *)
Definition mounted (sg : Segmentation.state) : state :=
  {| animationFrameRef := None; lastFrameTimeRef := 0%float;
     fpsCounterRef := []; isProcessingActiveRef := false;
     isFrameProcessingRef := false; seg := sg; nextHandle := 0;
     pending := []; canvas := []; stats := []; errors := 0 |}.

Definition set_animationFrameRef (v : option nat) (s : state) : state :=
  {| animationFrameRef := v; lastFrameTimeRef := lastFrameTimeRef s;
     fpsCounterRef := fpsCounterRef s;
     isProcessingActiveRef := isProcessingActiveRef s;
     isFrameProcessingRef := isFrameProcessingRef s; seg := seg s;
     nextHandle := nextHandle s; pending := pending s; canvas := canvas s;
     stats := stats s; errors := errors s |}.

Definition set_lastFrameTimeRef (v : float) (s : state) : state :=
  {| animationFrameRef := animationFrameRef s; lastFrameTimeRef := v;
     fpsCounterRef := fpsCounterRef s;
     isProcessingActiveRef := isProcessingActiveRef s;
     isFrameProcessingRef := isFrameProcessingRef s; seg := seg s;
     nextHandle := nextHandle s; pending := pending s; canvas := canvas s;
     stats := stats s; errors := errors s |}.

Definition set_fpsCounterRef (v : list float) (s : state) : state :=
  {| animationFrameRef := animationFrameRef s;
     lastFrameTimeRef := lastFrameTimeRef s; fpsCounterRef := v;
     isProcessingActiveRef := isProcessingActiveRef s;
     isFrameProcessingRef := isFrameProcessingRef s; seg := seg s;
     nextHandle := nextHandle s; pending := pending s; canvas := canvas s;
     stats := stats s; errors := errors s |}.

Definition set_isProcessingActiveRef (v : bool) (s : state) : state :=
  {| animationFrameRef := animationFrameRef s;
     lastFrameTimeRef := lastFrameTimeRef s;
     fpsCounterRef := fpsCounterRef s; isProcessingActiveRef := v;
     isFrameProcessingRef := isFrameProcessingRef s; seg := seg s;
     nextHandle := nextHandle s; pending := pending s; canvas := canvas s;
     stats := stats s; errors := errors s |}.

Definition set_isFrameProcessingRef (v : bool) (s : state) : state :=
  {| animationFrameRef := animationFrameRef s;
     lastFrameTimeRef := lastFrameTimeRef s;
     fpsCounterRef := fpsCounterRef s;
     isProcessingActiveRef := isProcessingActiveRef s;
     isFrameProcessingRef := v; seg := seg s;
     nextHandle := nextHandle s; pending := pending s; canvas := canvas s;
     stats := stats s; errors := errors s |}.

Definition set_seg (v : Segmentation.state) (s : state) : state :=
  {| animationFrameRef := animationFrameRef s;
     lastFrameTimeRef := lastFrameTimeRef s;
     fpsCounterRef := fpsCounterRef s;
     isProcessingActiveRef := isProcessingActiveRef s;
     isFrameProcessingRef := isFrameProcessingRef s; seg := v;
     nextHandle := nextHandle s; pending := pending s; canvas := canvas s;
     stats := stats s; errors := errors s |}.

Definition set_nextHandle (v : nat) (s : state) : state :=
  {| animationFrameRef := animationFrameRef s;
     lastFrameTimeRef := lastFrameTimeRef s;
     fpsCounterRef := fpsCounterRef s;
     isProcessingActiveRef := isProcessingActiveRef s;
     isFrameProcessingRef := isFrameProcessingRef s; seg := seg s;
     nextHandle := v; pending := pending s; canvas := canvas s;
     stats := stats s; errors := errors s |}.

Definition set_pending (v : list suspended) (s : state) : state :=
  {| animationFrameRef := animationFrameRef s;
     lastFrameTimeRef := lastFrameTimeRef s;
     fpsCounterRef := fpsCounterRef s;
     isProcessingActiveRef := isProcessingActiveRef s;
     isFrameProcessingRef := isFrameProcessingRef s; seg := seg s;
     nextHandle := nextHandle s; pending := v; canvas := canvas s;
     stats := stats s; errors := errors s |}.

Definition set_canvas (v : list canvasOp) (s : state) : state :=
  {| animationFrameRef := animationFrameRef s;
     lastFrameTimeRef := lastFrameTimeRef s;
     fpsCounterRef := fpsCounterRef s;
     isProcessingActiveRef := isProcessingActiveRef s;
     isFrameProcessingRef := isFrameProcessingRef s; seg := seg s;
     nextHandle := nextHandle s; pending := pending s; canvas := v;
     stats := stats s; errors := errors s |}.

Definition set_stats (v : list ProcessingStats) (s : state) : state :=
  {| animationFrameRef := animationFrameRef s;
     lastFrameTimeRef := lastFrameTimeRef s;
     fpsCounterRef := fpsCounterRef s;
     isProcessingActiveRef := isProcessingActiveRef s;
     isFrameProcessingRef := isFrameProcessingRef s; seg := seg s;
     nextHandle := nextHandle s; pending := pending s; canvas := canvas s;
     stats := v; errors := errors s |}.

Definition set_errors (v : nat) (s : state) : state :=
  {| animationFrameRef := animationFrameRef s;
     lastFrameTimeRef := lastFrameTimeRef s;
     fpsCounterRef := fpsCounterRef s;
     isProcessingActiveRef := isProcessingActiveRef s;
     isFrameProcessingRef := isFrameProcessingRef s; seg := seg s;
     nextHandle := nextHandle s; pending := pending s; canvas := canvas s;
     stats := stats s; errors := v |}.

(** A list length as a JavaScript number. *)
Definition number_of_nat (n : nat) : float :=
  PrimFloat.of_uint63 (Uint63.of_Z (Z.of_nat n)).

(** [Math.round]: the nearest integral number, a tie going towards
    [+Infinity]; NaN, the infinities, the zeros and numbers that are
    integral already are returned as they are, and a negative number that
    rounds to zero gives [-0]. *)
Definition Math_round (x : float) : float :=
  match Prim2SF x with
  | S754_finite sgn m e =>
      if (0 <=? e)%Z then x
      else
        let d := (2 ^ (- e))%Z in
        if sgn then
          (- PrimFloat.of_uint63
               (Uint63.of_Z ((2 * Z.pos m + d - 1) / (2 * d))))%float
        else
          PrimFloat.of_uint63 (Uint63.of_Z ((2 * Z.pos m + d) / (2 * d)))
  | _ => x
  end.

(** [fpsCounterRef.current.reduce((a, b) => a + b, 0) / length]. *)
Definition average (samples : list float) : float :=
  (fold_left PrimFloat.add samples 0 / number_of_nat (length samples))%float.

(** What the surroundings hold when [processVideoFrame] is called:
    whether the video and both canvases are there and the video is
    playing, whether both canvases give a 2d context, the frame
    [getImageData] reads back from the hidden canvas ([None]: drawing or
    reading throws) and the clock. *)
Record TickEnv := {
  videoPlaying : bool;
  contexts : bool;
  capture : option Effects.ImageData;
  tickTime : float
}.

(** What the surroundings hold when a suspended call resumes: whether
    [send] resolved, the picture the video shows, and the two readings of
    the clock. *)
Record ResumeEnv := {
  sendOk : bool;
  video : Effects.ImageData;
  endTime : float;
  now : float
}.

(** What [drawVideoDirectly] finds: the video and the canvas there and the
    video playing, a 2d context, and the picture the video shows. *)
Record DrawEnv := {
  drawPlaying : bool;
  drawContext : bool;
  drawVideo : Effects.ImageData
}.

Section WithProps.

(** Whether the component was given an [onStatsUpdate] callback. *)
Variable onStatsUpdate : bool.

(** [animationFrameRef.current = requestAnimationFrame(...)]. *)
Definition requestAnimationFrame (s : state) : state :=
  set_nextHandle (S (nextHandle s))
    (set_animationFrameRef (Some (nextHandle s)) s).

(** [if (isProcessingActiveRef.current) animationFrameRef.current = ...]. *)
Definition rearm (s : state) : state :=
  if isProcessingActiveRef s then requestAnimationFrame s else s.

Definition draw (op : canvasOp) (s : state) : state :=
  set_canvas (op :: canvas s) s.

Definition console_error (s : state) : state :=
  set_errors (S (errors s)) s.

(** [processVideoFrame] up to its [await]. *)
Definition processVideoFrame (e : TickEnv) (s : state) : state :=
  if negb (isProcessingActiveRef s) then s
  else if isFrameProcessingRef s then rearm s
  else
    let s := set_isFrameProcessingRef true s in
    if negb (videoPlaying e) then rearm (set_isFrameProcessingRef false s)
    else if negb (contexts e) then rearm (set_isFrameProcessingRef false s)
    else
      match capture e with
      | None => rearm (set_isFrameProcessingRef false (console_error s))
      | Some fd =>
          set_pending
            (pending s ++
               [{| frameData := fd; startTime := tickTime e;
                   sent := Segmentation.processFrame_send (seg s) |}]) s
      end.

(** The FPS bookkeeping at the end of the [try] block. *)
Definition recordStats (k : suspended) (e : ResumeEnv) (s : state) : state :=
  let processingTime := (endTime e - startTime k)%float in
  let deltaTime := (now e - lastFrameTimeRef s)%float in
  let s :=
    if (0 <? deltaTime)%float then
      let currentFps := (1000 / deltaTime)%float in
      let pushed := fpsCounterRef s ++ [currentFps] in
      let kept := if 30 <? length pushed then tail pushed else pushed in
      let s := set_fpsCounterRef kept s in
      if onStatsUpdate then
        set_stats ({| fps := Math_round (average kept);
                      processingTime := Math_round processingTime |}
                     :: stats s) s
      else s
    else s in
  set_lastFrameTimeRef (now e) s.

(** The value [await processFrame(video)] gives the suspended call [k]. *)
Definition awaited (k : suspended) (e : ResumeEnv) (s : state)
    : option Effects.ImageData :=
  if sent k then Segmentation.processFrame_return (sendOk e) (seg s)
  else None.

(** [processVideoFrame] from its [await] on.  A throwing compositor lands
    in the [catch], which skips the bookkeeping. *)
Definition resume (k : suspended) (e : ResumeEnv) (s : state) : state :=
  let segmentationMask := awaited k e s in
  if negb (isProcessingActiveRef s) then set_isFrameProcessingRef false s
  else
    let drawn :=
      match segmentationMask with
      | Some mask =>
          if Effects.areCompatibleDimensions (frameData k) mask then
            processedFrame ← Effects.applyGrayscaleToBackground
                               (frameData k) mask Effects.no_options;
            Some (draw (PutImageData processedFrame) s)
          else Some (draw (DrawImage (video e)) s)
      | None => Some (draw (DrawImage (video e)) s)
      end in
    let s :=
      match drawn with
      | Some s => recordStats k e s
      | None => console_error s
      end in
    rearm (set_isFrameProcessingRef false s).

(** The cleanup both branches of the effect return. *)
Definition effect_cleanup (s : state) : state :=
  let s := set_isFrameProcessingRef false
             (set_isProcessingActiveRef false s) in
  match animationFrameRef s with
  | Some _ => set_animationFrameRef None s
  | None => s
  end.

(** [drawVideoDirectly], the loop of the switched-off effect. *)
Definition drawVideoDirectly (d : DrawEnv) (s : state) : state :=
  if negb (drawPlaying d) then s
  else
    let s := if drawContext d then draw (DrawImage (drawVideo d)) s else s in
    requestAnimationFrame s.

(** Clearing the visible canvas, when it is there and gives a context
    ([present]); the hidden canvas is cleared alongside. *)
Definition clearCanvases (present : bool) (s : state) : state :=
  if present then draw ClearRect s else s.

(** The body of the main effect, run with the current [isVideoReady] and
    [effectEnabled]; [isModelLoaded] is the hook's. *)
Definition effect (isVideoReady effectEnabled present : bool)
    (e : TickEnv) (d : DrawEnv) (s : state) : state :=
  if negb isVideoReady || negb (Segmentation.isModelLoaded (seg s))
     || negb effectEnabled
  then
    let s := set_isFrameProcessingRef false
               (set_isProcessingActiveRef false s) in
    let s :=
      if negb effectEnabled then
        let s := set_seg (Segmentation.reset (seg s)) s in
        let s := clearCanvases present s in
        set_lastFrameTimeRef 0%float (set_fpsCounterRef [] s)
      else s in
    if isVideoReady && negb effectEnabled then drawVideoDirectly d s else s
  else
    let s := set_isProcessingActiveRef true s in
    let s := set_seg (Segmentation.enable (seg s)) s in
    let s := clearCanvases present s in
    let s := set_lastFrameTimeRef 0%float (set_fpsCounterRef [] s) in
    processVideoFrame e s.

(** What can happen to the component: a call of [processVideoFrame] (by
    the animation-frame callback), the provider's results callback, the
    [i]-th suspended call resuming, a re-run of the effect (the previous
    run's cleanup, then the body), and a frame of the direct-draw loop. *)
Inductive event :=
| Tick (e : TickEnv)
| Results (ctx : bool) (results : Segmentation.Results)
| Resume (i : nat) (e : ResumeEnv)
| Effect (isVideoReady effectEnabled present : bool)
         (e : TickEnv) (d : DrawEnv)
| Draw (d : DrawEnv).

Definition step (s : state) (ev : event) : state :=
  match ev with
  | Tick e => processVideoFrame e s
  | Results ctx results =>
      set_seg (Segmentation.onResults ctx results (seg s)) s
  | Resume i e =>
      match pending s !! i with
      | Some k => resume k e (set_pending (delete i (pending s)) s)
      | None => s
      end
  | Effect isVideoReady effectEnabled present e d =>
      effect isVideoReady effectEnabled present e d (effect_cleanup s)
  | Draw d => drawVideoDirectly d s
  end.

Definition run (s : state) (trace : list event) : state :=
  fold_left step trace s.

(** The events of one run of the effect: everything but a re-run. *)
Definition within_run (ev : event) : bool :=
  match ev with Effect _ _ _ _ _ => false | _ => true end.

End WithProps.

(** At most one call of [processVideoFrame] waits at its [await], and the
    guard flag is set while one does. *)
Definition one_in_flight (s : state) : bool :=
  match pending s with
  | [] => true
  | [_] => isFrameProcessingRef s
  | _ => false
  end.


End Scheduler.
(** ** Facts about JavaScript numbers *)

Section JSFacts.
Import JS.

Lemma ltb_nan_l (t : float) : (nan <? t)%float = false.
Proof. rewrite ltb_spec. reflexivity. Qed.

Lemma toNumber_undefined_not_below (t : float) :
  (toNumber None <? t)%float = false.
Proof. apply ltb_nan_l. Qed.

Lemma SFcompare_antisym (a b : spec_float) :
  SFcompare b a = CompOpp <$> SFcompare a b.
Proof.
  destruct a as [[]|[]| |[] m1 e1], b as [[]|[]| |[] m2 e2];
    simpl; try reflexivity.
  all: rewrite (Z.compare_antisym e1 e2); destruct (e1 ?= e2)%Z;
    simpl; try reflexivity.
  all: rewrite (Pos.compare_cont_antisym m1 m2 Eq); simpl.
  all: try rewrite CompOpp_involutive; reflexivity.
Qed.

(** [t <= x] excludes [x < t], for all numbers including NaN and the
    infinities. *)
Lemma leb_not_ltb (t x : float) :
  (t <=? x)%float = true -> (x <? t)%float = false.
Proof.
  rewrite leb_spec, ltb_spec. unfold SFleb, SFltb.
  rewrite (SFcompare_antisym (Prim2SF t) (Prim2SF x)).
  destruct (SFcompare (Prim2SF t) (Prim2SF x)) as [[]|]; simpl; congruence.
Qed.

(** A gray pixel is a fixed point of both grayscale formulas: the value
    computed from [(v, v, v)] is stored back as [v]. *)
Lemma gray_fixed_point (weighted : bool) (v : byte) :
  ToUint8Clamp
    (Effects.grayValue weighted (byte_to_float v) (byte_to_float v)
       (byte_to_float v)) = v.
Proof. destruct weighted; destruct v; vm_compute; reflexivity. Qed.

End JSFacts.

(** ** The compositor loop, pixel by pixel *)

Section Loop.
Import JS Effects.

Variables (maskData : list byte) (thr : float) (weighted : bool).

Local Abbreviation pixelOut := (pixelOut maskData thr weighted).

(** Division facts about the channel offset [j mod 4], for [lia]. *)
Local Ltac channel j :=
  pose proof (Nat.div_mod_eq j 4);
  pose proof (Nat.mod_upper_bound j 4 ltac:(lia)).

Lemma grayscaleStep_length i fd :
  length (grayscaleStep i fd maskData thr weighted) = length fd.
Proof.
  unfold grayscaleStep. destruct (_ <? _)%float; [|reflexivity].
  by rewrite !length_insert.
Qed.

Lemma grayscaleStep_other i fd j :
  j < i \/ i + 3 <= j ->
  grayscaleStep i fd maskData thr weighted !! j = fd !! j.
Proof.
  intros Hj. unfold grayscaleStep. destruct (_ <? _)%float; [|reflexivity].
  rewrite !list_lookup_insert_ne by lia. reflexivity.
Qed.

Lemma grayscaleStep_pixel k fd j :
  4 * k <= j < 4 * k + 4 ->
  grayscaleStep (4 * k) fd maskData thr weighted !! j = pixelOut fd j.
Proof.
  intros Hj. unfold grayscaleStep, pixelOut. channel j.
  assert (Hp : j - j mod 4 = 4 * k) by lia. rewrite Hp.
  destruct (_ <? _)%float; cbn [andb]; [|reflexivity].
  destruct (Nat.ltb_spec (j mod 4) 3) as [H3|H3]; cbn [andb].
  - destruct (Nat.ltb_spec j (length fd)) as [Hl|Hl].
    + assert (Hc : j = 4 * k \/ j = 4 * k + 1 \/ j = 4 * k + 2) by lia.
      destruct Hc as [->|[->| ->]].
      * rewrite list_lookup_insert_ne, list_lookup_insert_ne by lia.
        by rewrite list_lookup_insert_eq by lia.
      * rewrite list_lookup_insert_ne by lia.
        by rewrite list_lookup_insert_eq by (rewrite length_insert; lia).
      * by rewrite list_lookup_insert_eq by (rewrite !length_insert; lia).
    + rewrite (lookup_ge_None_2 fd j) by lia.
      apply lookup_ge_None_2. rewrite !length_insert. lia.
  - rewrite !list_lookup_insert_ne by lia. reflexivity.
Qed.

Lemma pixelOut_step k fd j :
  4 * k + 4 <= j ->
  pixelOut (grayscaleStep (4 * k) fd maskData thr weighted) j = pixelOut fd j.
Proof.
  intros Hj. unfold pixelOut. channel j.
  rewrite grayscaleStep_length, !grayscaleStep_other by lia. reflexivity.
Qed.

Lemma pixelOut_ge fd j : length fd <= j -> pixelOut fd j = fd !! j.
Proof.
  intros Hj. unfold pixelOut.
  destruct (Nat.ltb_spec j (length fd)); [lia|].
  by rewrite andb_false_r.
Qed.

(** The loop started at pixel [k], with enough fuel to reach its exit
    test, leaves everything before index [4 * k] alone and rewrites the
    rest pixel by pixel. *)
Lemma grayscaleLoop_lookup fuel : forall k fd j,
  length fd <= 4 * (k + fuel) ->
  grayscaleLoop fuel (4 * k) fd maskData thr weighted !! j
  = if decide (j < 4 * k) then fd !! j else pixelOut fd j.
Proof.
  induction fuel as [|fuel IH]; intros k fd j Hfuel; cbn [grayscaleLoop].
  - case_decide; [reflexivity|]. rewrite pixelOut_ge by lia. reflexivity.
  - destruct (decide (4 * k < length fd)) as [Hlt|Hge].
    + replace (4 * k + 4) with (4 * S k) by lia.
      rewrite IH by (rewrite grayscaleStep_length; lia).
      destruct (decide (j < 4 * S k)) as [H1|H1];
        destruct (decide (j < 4 * k)) as [H2|H2]; try lia.
      * apply grayscaleStep_other. lia.
      * apply grayscaleStep_pixel. lia.
      * apply pixelOut_step. lia.
    + case_decide; [reflexivity|]. rewrite pixelOut_ge by lia. reflexivity.
Qed.

Lemma grayscaleLoop_length fuel : forall i fd,
  length (grayscaleLoop fuel i fd maskData thr weighted) = length fd.
Proof.
  induction fuel as [|fuel IH]; intros i fd; simpl; [reflexivity|].
  case_decide; [|reflexivity]. by rewrite IH, grayscaleStep_length.
Qed.

(** The fuel [length fd] never cuts the loop short: any larger fuel gives
    the same buffer, so the result is the one at which the source's exit
    test [i < frameData.length] fails. *)
Lemma grayscaleLoop_fuel fd extra :
  grayscaleLoop (length fd + extra) 0 fd maskData thr weighted
  = grayscaleLoop (length fd) 0 fd maskData thr weighted.
Proof.
  apply list_eq. intros j.
  rewrite (grayscaleLoop_lookup (length fd + extra) 0) by lia.
  rewrite (grayscaleLoop_lookup (length fd) 0) by lia. reflexivity.
Qed.

Lemma grayscaleLoop_pixels fd j :
  grayscaleLoop (length fd) 0 fd maskData thr weighted !! j = pixelOut fd j.
Proof.
  rewrite (grayscaleLoop_lookup (length fd) 0) by lia.
  case_decide; [lia|reflexivity].
Qed.

End Loop.

(** ** The compositor on well-formed frames *)

Section Compositor.
Import JS Effects.

Lemma wf_new_ImageData img :
  wf_ImageData img = true ->
  new_ImageData (data img) (width img) (height img) = Some img.
Proof.
  destruct img as [w h d]. unfold wf_ImageData, new_ImageData. simpl.
  intros Hwf. apply andb_prop in Hwf as [Hwf Hlen].
  apply andb_prop in Hwf as [Hw Hh].
  apply negb_true_iff, N.eqb_neq in Hw, Hh. apply N.eqb_eq in Hlen.
  rewrite Hlen.
  replace (4 * (w * h))%N with ((w * h) * 4)%N by lia.
  rewrite N.Div0.mod_mul, N.div_mul by lia.
  rewrite (N.mul_comm w h), N.Div0.mod_mul, N.div_mul by lia.
  destruct (N.eqb_spec w 0); [lia|].
  destruct (N.eqb_spec (h * w * 4) 0); [lia|].
  rewrite !N.eqb_refl. reflexivity.
Qed.

Lemma wf_length_mod4 img :
  wf_ImageData img = true -> length (data img) mod 4 = 0.
Proof.
  unfold wf_ImageData. intros Hwf. apply andb_prop in Hwf as [_ Hlen].
  apply N.eqb_eq in Hlen.
  assert (Hn : length (data img) = 4 * N.to_nat (width img * height img))
    by lia.
  rewrite Hn, Nat.mul_comm. apply Nat.Div0.mod_mul.
Qed.

Lemma compatible_length f m :
  wf_ImageData f = true -> wf_ImageData m = true ->
  areCompatibleDimensions f m = true ->
  length (data m) = length (data f).
Proof.
  unfold wf_ImageData, areCompatibleDimensions. intros Hf Hm Hc.
  apply andb_prop in Hf as [_ Hf]. apply andb_prop in Hm as [_ Hm].
  apply andb_prop in Hc as [Hw Hh].
  apply N.eqb_eq in Hf, Hm, Hw, Hh. rewrite Hw, Hh in Hf. lia.
Qed.

(** On a well-formed frame the compositor returns, and the returned data
    is the loop's result on the frame's bytes. *)
Lemma applyGrayscaleToBackground_wf f m o :
  wf_ImageData f = true ->
  applyGrayscaleToBackground f m o
  = Some {| width := width f; height := height f;
            data := grayscaleLoop (length (data f)) 0 (data f) (data m)
                      (default DEFAULT_THRESHOLD (threshold o))
                      (default false (useWeightedGrayscale o)) |}.
Proof.
  intros Hwf. unfold applyGrayscaleToBackground.
  rewrite (wf_new_ImageData f Hwf). reflexivity.
Qed.

(** A frame whose every sampled mask value is not below the threshold
    (absent samples included) comes back unchanged. *)
Lemma composite_identity f m o :
  wf_ImageData f = true ->
  (forall i, i mod 4 = 0 -> i < length (data f) ->
     (toNumber (data m !! i) <? default DEFAULT_THRESHOLD (threshold o))
       %float = false) ->
  applyGrayscaleToBackground f m o = Some f.
Proof.
  intros Hwf Hfg. rewrite applyGrayscaleToBackground_wf by assumption.
  destruct f as [w h d]. cbn [data width height] in *. do 2 f_equal.
  apply list_eq. intros j. rewrite grayscaleLoop_pixels. unfold pixelOut.
  destruct (Nat.ltb_spec j (length d)) as [Hj|Hj];
    [|by rewrite andb_false_r].
  pose proof (Nat.div_mod_eq j 4).
  pose proof (Nat.mod_upper_bound j 4 ltac:(lia)).
  rewrite Hfg; [reflexivity| |lia].
  replace (j - j mod 4) with (j / 4 * 4) by lia.
  apply Nat.Div0.mod_mul.
Qed.

(** When every sampled mask value is below the threshold, each in-range
    element of the result is given by [pixelOut] with the test taken. *)
Lemma composite_background_lookup f m o j :
  wf_ImageData f = true -> wf_ImageData m = true ->
  areCompatibleDimensions f m = true ->
  (forall i c, i mod 4 = 0 -> data m !! i = Some c ->
     (byte_to_float c <? default DEFAULT_THRESHOLD (threshold o))%float
     = true) ->
  j < length (data f) ->
  grayscaleLoop (length (data f)) 0 (data f) (data m)
    (default DEFAULT_THRESHOLD (threshold o))
    (default false (useWeightedGrayscale o)) !! j
  = if j mod 4 <? 3
    then Some (ToUint8Clamp
                 (grayValue (default false (useWeightedGrayscale o))
                    (toNumber (data f !! (j - j mod 4)))
                    (toNumber (data f !! (j - j mod 4 + 1)))
                    (toNumber (data f !! (j - j mod 4 + 2)))))
    else data f !! j.
Proof.
  intros Hf Hm Hc Hbg Hj. rewrite grayscaleLoop_pixels. unfold pixelOut.
  pose proof (compatible_length f m Hf Hm Hc) as Hlen.
  pose proof (Nat.div_mod_eq j 4).
  pose proof (Nat.mod_upper_bound j 4 ltac:(lia)).
  destruct (lookup_lt_is_Some_2 (data m) (j - j mod 4) ltac:(lia)) as [c Hc'].
  rewrite Hc'. cbn [toNumber]. rewrite (Hbg (j - j mod 4) c); [| |assumption].
  - destruct (Nat.ltb_spec j (length (data f))); [|lia].
    rewrite andb_true_r. reflexivity.
  - replace (j - j mod 4) with (j / 4 * 4) by lia. apply Nat.Div0.mod_mul.
Qed.

End Compositor.

(** ** Claims about the compositor *)

Section CompositorClaims.
Import JS Effects.

(** C1 (default threshold).  The spec gives 127 as the default threshold;
    the source's [DEFAULT_THRESHOLD] is 255.  On a one-pixel frame
    (200, 100, 50, 255) whose mask confidence is 200 (at least 127, so a
    foreground pixel under the spec's default) a call without a threshold
    option grays the pixel to 117, while the same call with the threshold
    127 passed explicitly returns the frame unchanged. *)
Theorem C1_default_threshold_is_255 :
  let frame := {| width := 1; height := 1; data := [xc8; x64; x32; xff] |} in
  let mask := {| width := 1; height := 1; data := [xc8; xc8; xc8; xff] |} in
  (127 <=? byte_to_float xc8)%float = true /\
  applyGrayscaleToBackground frame mask no_options
  = Some {| width := 1; height := 1; data := [x75; x75; x75; xff] |} /\
  applyGrayscaleToBackground frame mask
    {| threshold := Some 127%float; useWeightedGrayscale := None |}
  = Some frame /\
  DEFAULT_THRESHOLD = 255%float.
Proof. vm_compute. auto. Qed.

(** C4 (foreground identity).  For a well-formed frame and a
    dimension-compatible mask whose every sampled confidence is greater
    than or equal to the threshold (equality included), the compositor
    returns the input frame exactly. *)
Theorem C4_foreground_identity (frame mask : ImageData)
    (options : ProcessingOptions) :
  wf_ImageData frame = true -> wf_ImageData mask = true ->
  areCompatibleDimensions frame mask = true ->
  (forall i c, i mod 4 = 0 -> data mask !! i = Some c ->
     (default DEFAULT_THRESHOLD (threshold options) <=? byte_to_float c)
       %float = true) ->
  applyGrayscaleToBackground frame mask options = Some frame.
Proof.
  intros Hf _ _ Hfg. apply composite_identity; [assumption|].
  intros i Hi _. destruct (data mask !! i) as [c|] eqn:Hc.
  - apply leb_not_ltb. eauto.
  - apply toNumber_undefined_not_below.
Qed.

Lemma C4_foreground_identity_witness :
  let frame := {| width := 1; height := 2;
                  data := [xc8; x64; x32; xff; x0a; x14; x1e; x80] |} in
  let mask := {| width := 1; height := 2;
                 data := [x7f; x00; x00; xff; xff; x00; x00; xff] |} in
  applyGrayscaleToBackground frame mask
    {| threshold := Some 127%float; useWeightedGrayscale := Some true |}
  = Some frame.
Proof.
  apply C4_foreground_identity; [reflexivity..|].
  intros i c Hi Hc.
  destruct i as [|[|[|[|[|[|[|[|i]]]]]]]]; try discriminate Hi;
    simpl in Hc; try discriminate Hc;
    injection Hc as <-; vm_compute; reflexivity.
Defined.

(** C5 (background grayscale).  For a well-formed frame and a
    dimension-compatible mask whose every sampled confidence is strictly
    below the threshold, the compositor returns a frame of the same size in
    which each pixel's R, G and B hold one gray value, the stored
    [(r+g+b)/3] or [0.299r + 0.587g + 0.114b] of the input pixel, and whose
    fourth channel is the input's; Average on (200, 100, 50) stores 117.
    The two formulas are written out in the statement, in JavaScript's
    arithmetic and evaluation order. *)
Theorem C5_background_grayscale (frame mask : ImageData)
    (options : ProcessingOptions) :
  wf_ImageData frame = true -> wf_ImageData mask = true ->
  areCompatibleDimensions frame mask = true ->
  (forall i c, i mod 4 = 0 -> data mask !! i = Some c ->
     (byte_to_float c <? default DEFAULT_THRESHOLD (threshold options))
       %float = true) ->
  exists out,
    applyGrayscaleToBackground frame mask options = Some out /\
    width out = width frame /\ height out = height frame /\
    length (data out) = length (data frame) /\
    (forall p r g b a,
       p mod 4 = 0 ->
       data frame !! p = Some r -> data frame !! (p + 1) = Some g ->
       data frame !! (p + 2) = Some b -> data frame !! (p + 3) = Some a ->
       let gray :=
         ToUint8Clamp
           (if default false (useWeightedGrayscale options)
            then (0.299 * byte_to_float r + 0.587 * byte_to_float g
                  + 0.114 * byte_to_float b)%float
            else ((byte_to_float r + byte_to_float g + byte_to_float b)
                  / 3)%float) in
       data out !! p = Some gray /\ data out !! (p + 1) = Some gray /\
       data out !! (p + 2) = Some gray /\ data out !! (p + 3) = Some a) /\
    ToUint8Clamp
      ((byte_to_float xc8 + byte_to_float x64 + byte_to_float x32) / 3)%float
    = x75 /\
    applyGrayscaleToBackground
      {| width := 1; height := 1; data := [xc8; x64; x32; xff] |}
      {| width := 1; height := 1; data := [x00; x00; x00; x00] |}
      {| threshold := Some 127%float; useWeightedGrayscale := Some false |}
    = Some {| width := 1; height := 1; data := [x75; x75; x75; xff] |}.
Proof.
  intros Hf Hm Hc Hbg. eexists.
  split; [apply applyGrayscaleToBackground_wf; assumption|].
  cbn [width height data]. rewrite grayscaleLoop_length.
  do 3 (split; [reflexivity|]).
  split; [|split; vm_compute; reflexivity].
  intros p r g b a Hp Hr Hg Hb Ha.
  assert (Hlt : p + 3 < length (data frame)) by (eapply lookup_lt_Some; eauto).
  assert (H1 : (p + 1) mod 4 = 1).
  { rewrite <- Nat.Div0.add_mod_idemp_l, Hp. reflexivity. }
  assert (H2 : (p + 2) mod 4 = 2).
  { rewrite <- Nat.Div0.add_mod_idemp_l, Hp. reflexivity. }
  assert (H3 : (p + 3) mod 4 = 3).
  { rewrite <- Nat.Div0.add_mod_idemp_l, Hp. reflexivity. }
  rewrite !(composite_background_lookup frame mask options) by (assumption || lia).
  rewrite Hp, H1, H2, H3. cbn [Nat.ltb Nat.leb].
  replace (p - 0) with p by lia. replace (p + 1 - 1) with p by lia.
  replace (p + 2 - 2) with p by lia.
  rewrite Hr, Hg, Hb, Ha. cbn [toNumber]. unfold grayValue. auto.
Qed.

Lemma C5_background_grayscale_witness :
  let frame := {| width := 1; height := 1; data := [xc8; x64; x32; xff] |} in
  let mask := {| width := 1; height := 1; data := [x00; x00; x00; xff] |} in
  let options :=
    {| threshold := Some 127%float; useWeightedGrayscale := Some true |} in
  exists out,
    applyGrayscaleToBackground frame mask options = Some out /\
    data out !! 0 = Some x7c /\ data out !! 1 = Some x7c /\
    data out !! 2 = Some x7c /\ data out !! 3 = Some xff.
Proof.
  intros frame mask options.
  destruct (C5_background_grayscale frame mask options)
    as (out & Hout & _ & _ & _ & Hpix & _); [reflexivity..| |].
  - intros i c Hi Hc.
    destruct i as [|[|[|[|i]]]]; try discriminate Hi;
      simpl in Hc; try discriminate Hc.
    injection Hc as <-. vm_compute. reflexivity.
  - exists out. split; [exact Hout|].
    apply (Hpix 0 xc8 x64 x32 xff); reflexivity.
Defined.

Lemma composite_once_wf f m o :
  wf_ImageData f = true -> wf_ImageData (composite_once f m o) = true.
Proof.
  unfold wf_ImageData, composite_once. cbn [width height data].
  by rewrite grayscaleLoop_length.
Qed.

(** Running the loop on an all-background result changes nothing. *)
Lemma composite_once_fixed f m o :
  wf_ImageData f = true -> wf_ImageData m = true ->
  areCompatibleDimensions f m = true ->
  (forall i c, i mod 4 = 0 -> data m !! i = Some c ->
     (byte_to_float c <? default DEFAULT_THRESHOLD (threshold o))%float
     = true) ->
  grayscaleLoop (length (data (composite_once f m o))) 0
    (data (composite_once f m o)) (data m)
    (default DEFAULT_THRESHOLD (threshold o))
    (default false (useWeightedGrayscale o))
  = data (composite_once f m o).
Proof.
  intros Hf Hm Hc Hbg.
  pose proof (composite_once_wf f m o Hf) as Hwf.
  assert (Hlen : length (data (composite_once f m o)) = length (data f))
    by apply grayscaleLoop_length.
  assert (Hc' : areCompatibleDimensions (composite_once f m o) m = true)
    by exact Hc.
  apply list_eq. intros j.
  destruct (decide (j < length (data f))) as [Hj|Hj].
  - pose proof (Nat.div_mod_eq j 4).
    pose proof (Nat.mod_upper_bound j 4 ltac:(lia)).
    pose proof (wf_length_mod4 f Hf) as Hmod.
    pose proof (Nat.div_mod_eq (length (data f)) 4).
    rewrite (composite_background_lookup (composite_once f m o) m o j)
      by (assumption || lia).
    remember (j - j mod 4) as p eqn:Ep.
    assert (Hp : p mod 4 = 0).
    { replace p with (j / 4 * 4) by lia. apply Nat.Div0.mod_mul. }
    assert (Hp1 : (p + 1) mod 4 = 1).
    { rewrite <- Nat.Div0.add_mod_idemp_l, Hp. reflexivity. }
    assert (Hp2 : (p + 2) mod 4 = 2).
    { rewrite <- Nat.Div0.add_mod_idemp_l, Hp. reflexivity. }
    unfold composite_once. cbn [data].
    rewrite !(composite_background_lookup f m o) by (assumption || lia).
    rewrite Hp, Hp1, Hp2, <- Ep.
    change (0 <? 3) with true. change (1 <? 3) with true.
    change (2 <? 3) with true. cbv iota.
    replace (p - 0) with p by lia. replace (p + 1 - 1) with p by lia.
    replace (p + 2 - 2) with p by lia.
    destruct (j mod 4 <? 3); [|reflexivity].
    cbn [toNumber]. rewrite gray_fixed_point. reflexivity.
  - rewrite !lookup_ge_None_2; [reflexivity|..];
      rewrite ?grayscaleLoop_length; lia.
Qed.

(** C9 (idempotence).  For a well-formed frame and a dimension-compatible
    mask whose every sampled confidence is strictly below the threshold,
    compositing the compositor's output again with the same mask and
    options returns that output, under either grayscale method. *)
Theorem C9_idempotent_on_background (frame mask : ImageData)
    (options : ProcessingOptions) :
  wf_ImageData frame = true -> wf_ImageData mask = true ->
  areCompatibleDimensions frame mask = true ->
  (forall i c, i mod 4 = 0 -> data mask !! i = Some c ->
     (byte_to_float c <? default DEFAULT_THRESHOLD (threshold options))
       %float = true) ->
  exists once,
    applyGrayscaleToBackground frame mask options = Some once /\
    applyGrayscaleToBackground once mask options = Some once.
Proof.
  intros Hf Hm Hc Hbg.
  exists (composite_once frame mask options).
  split; [apply applyGrayscaleToBackground_wf; assumption|].
  rewrite applyGrayscaleToBackground_wf
    by (apply composite_once_wf; assumption).
  rewrite composite_once_fixed by assumption. reflexivity.
Qed.

Lemma C9_idempotent_on_background_witness :
  let frame := {| width := 1; height := 1; data := [xc8; x64; x32; xff] |} in
  let mask := {| width := 1; height := 1; data := [x00; x00; x00; xff] |} in
  let options :=
    {| threshold := Some 127%float; useWeightedGrayscale := Some true |} in
  exists once,
    applyGrayscaleToBackground frame mask options = Some once /\
    applyGrayscaleToBackground once mask options = Some once.
Proof.
  intros frame mask options.
  apply (C9_idempotent_on_background frame mask options); [reflexivity..|].
  intros i c Hi Hc.
  destruct i as [|[|[|[|i]]]]; try discriminate Hi;
    simpl in Hc; try discriminate Hc.
  injection Hc as <-. vm_compute. reflexivity.
Defined.

(** C10 (short mask).  For a well-formed frame and any mask whose data is
    shorter than the frame's, the compositor returns a frame of the same
    size, and every element of a pixel whose mask sample index is past the
    end of the mask data is the input's. *)
Theorem C10_short_mask_total (frame mask : ImageData)
    (options : ProcessingOptions) :
  wf_ImageData frame = true ->
  length (data mask) < length (data frame) ->
  exists out,
    applyGrayscaleToBackground frame mask options = Some out /\
    width out = width frame /\ height out = height frame /\
    length (data out) = length (data frame) /\
    forall j, length (data mask) <= j - j mod 4 ->
              data out !! j = data frame !! j.
Proof.
  intros Hf Hshort. eexists.
  split; [apply applyGrayscaleToBackground_wf; assumption|].
  cbn [width height data]. rewrite grayscaleLoop_length.
  do 3 (split; [reflexivity|]). intros j Hj.
  rewrite grayscaleLoop_pixels. unfold pixelOut.
  rewrite (lookup_ge_None_2 (data mask)) by lia.
  rewrite toNumber_undefined_not_below. reflexivity.
Qed.

Lemma C10_short_mask_total_witness :
  let frame := {| width := 2; height := 1;
                  data := [xc8; x64; x32; xff; x0a; x14; x1e; x80] |} in
  let mask := {| width := 1; height := 1; data := [x00; x00; x00; xff] |} in
  exists out,
    applyGrayscaleToBackground frame mask no_options = Some out /\
    data out !! 4 = Some x0a /\ data out !! 5 = Some x14 /\
    data out !! 6 = Some x1e /\ data out !! 7 = Some x80.
Proof.
  intros frame mask.
  destruct (C10_short_mask_total frame mask no_options)
    as (out & Hout & _ & _ & _ & Hpix); [reflexivity|simpl; lia|].
  exists out. split; [exact Hout|].
  rewrite (Hpix 4), (Hpix 5), (Hpix 6), (Hpix 7) by (simpl; lia).
  auto.
Defined.

End CompositorClaims.

(** ** The store-level compositor refines the value-level one *)

Section StoreRefinement.
Import JS.
Implicit Types (h : gmap Store.loc (list byte)) (a fd md : Store.loc).

Lemma contents_lookup h a l : h !! a = Some l -> Store.contents h a = l.
Proof. unfold Store.contents. by intros ->. Qed.

Lemma contents_insert_eq h a l : Store.contents (<[a := l]> h) a = l.
Proof. apply contents_lookup, lookup_insert_eq. Qed.

Lemma contents_insert_ne h a a' l :
  a ≠ a' -> Store.contents (<[a := l]> h) a' = Store.contents h a'.
Proof. intros Hne. unfold Store.contents. by rewrite lookup_insert_ne. Qed.

Lemma write_allocated h a l i v :
  h !! a = Some l -> Store.write h a i v = <[a := <[i := v]> l]> h.
Proof. unfold Store.write. by intros ->. Qed.

Lemma write_insert h a l i v :
  Store.write (<[a := l]> h) a i v = <[a := <[i := v]> l]> h.
Proof.
  rewrite (write_allocated _ a l) by apply lookup_insert_eq.
  apply insert_insert_eq.
Qed.

(** One loop iteration writes only into the frame buffer, and what it
    writes is the value-level iteration on the buffer's contents. *)
Lemma store_grayscaleStep h i fd md l thr weighted :
  h !! fd = Some l -> fd ≠ md ->
  Store.grayscaleStep h i fd md thr weighted
  = <[fd := Effects.grayscaleStep i l (Store.contents h md) thr weighted]> h.
Proof.
  intros Hfd Hne. unfold Store.grayscaleStep, Effects.grayscaleStep.
  unfold Store.read. rewrite (contents_lookup h fd l Hfd).
  destruct (_ <? _)%float.
  - rewrite (write_allocated h fd l) by assumption.
    by rewrite !write_insert.
  - symmetry. by apply insert_id.
Qed.

Lemma store_grayscaleLoop fuel : forall i h fd md l thr weighted,
  h !! fd = Some l -> fd ≠ md ->
  Store.grayscaleLoop fuel i h fd md thr weighted
  = <[fd := Effects.grayscaleLoop fuel i l (Store.contents h md)
              thr weighted]> h.
Proof.
  induction fuel as [|fuel IH]; intros i h fd md l thr weighted Hfd Hne;
    cbn [Store.grayscaleLoop Effects.grayscaleLoop].
  - symmetry. by apply insert_id.
  - rewrite (contents_lookup h fd l Hfd).
    destruct (decide (i < length l)); [|symmetry; by apply insert_id].
    rewrite (store_grayscaleStep h i fd md l) by assumption.
    rewrite (IH (i + 4) _ fd md _ thr weighted (lookup_insert_eq _ _ _) Hne).
    by rewrite contents_insert_ne, insert_insert_eq.
Qed.

Lemma store_new_ImageData h a sw sh :
  Store.new_ImageData h a sw sh
  = (λ _, {| Store.data := a; Store.width := sw; Store.height := sh |})
    <$> Effects.new_ImageData (Store.contents h a) sw sh.
Proof.
  unfold Store.new_ImageData, Effects.new_ImageData.
  repeat match goal with |- context [if ?b then _ else _] => destruct b end;
    reflexivity.
Qed.

End StoreRefinement.

(** ** The compositor never writes to its input *)

Section StoreClaims.
Import JS.

(** C8 (no mutation of the input).  On every store, for every well-formed
    input frame, every mask (the frame itself included) and all options,
    the compositor returns an object whose buffer was not allocated before
    the call, every buffer that existed before the call (the input
    frame's among them) holds the same bytes afterwards, and the returned
    object denotes the value-level result. *)
Theorem C8_input_frame_not_mutated (h : gmap Store.loc (list byte))
    (frame mask : Store.ImageData) (options : Effects.ProcessingOptions) :
  is_Some (h !! Store.data frame) -> is_Some (h !! Store.data mask) ->
  Effects.wf_ImageData (Store.value h frame) = true ->
  exists h' out,
    Store.applyGrayscaleToBackground h frame mask options = Some (h', out) /\
    (Store.data out ∉ dom h) /\
    (Store.data out ≠ Store.data frame) /\
    (forall a, a ∈ dom h -> h' !! a = h !! a) /\
    h' !! Store.data frame = h !! Store.data frame /\
    Effects.applyGrayscaleToBackground (Store.value h frame)
      (Store.value h mask) options = Some (Store.value h' out).
Proof.
  intros Hfd Hmd Hwf.
  unfold Store.applyGrayscaleToBackground, Store.alloc.
  set (c := fresh (dom h)).
  assert (Hfresh : c ∉ dom h) by apply is_fresh.
  assert (Hcf : c ≠ Store.data frame).
  { intros ->. by apply Hfresh, elem_of_dom. }
  assert (Hcm : c ≠ Store.data mask).
  { intros ->. by apply Hfresh, elem_of_dom. }
  rewrite store_new_ImageData, contents_insert_eq.
  pose proof (wf_new_ImageData _ Hwf) as Hnew. cbn in Hnew.
  rewrite Hnew. cbn [fmap option_fmap option_map mbind option_bind Store.data].
  rewrite contents_insert_eq.
  rewrite (store_grayscaleLoop _ 0 _ c (Store.data mask) _ _ _
             (lookup_insert_eq _ _ _) Hcm).
  rewrite contents_insert_ne, insert_insert_eq by assumption.
  do 2 eexists. split; [reflexivity|].
  split; [exact Hfresh|]. split; [exact Hcf|].
  assert (Hold : forall a, a ∈ dom h ->
            <[c := Effects.grayscaleLoop
                     (length (Store.contents h (Store.data frame))) 0
                     (Store.contents h (Store.data frame))
                     (Store.contents h (Store.data mask))
                     (default Effects.DEFAULT_THRESHOLD
                        (Effects.threshold options))
                     (default false (Effects.useWeightedGrayscale options))]>
              h !! a = h !! a).
  { intros a Ha. apply lookup_insert_ne. intros ->. by apply Hfresh. }
  split; [exact Hold|]. split; [by apply Hold, elem_of_dom|].
  rewrite applyGrayscaleToBackground_wf by assumption.
  unfold Store.value. cbn [Store.data Store.width Store.height].
  by rewrite contents_insert_eq.
Qed.

Lemma C8_input_frame_not_mutated_witness :
  let h : gmap Store.loc (list byte) :=
    {[ 1%positive := [xc8; x64; x32; xff] ]} in
  let frame := {| Store.data := 1%positive; Store.width := 1;
                  Store.height := 1 |} in
  exists h' out,
    Store.applyGrayscaleToBackground h frame frame Effects.no_options
    = Some (h', out) /\
    h' !! 1%positive = Some [xc8; x64; x32; xff] /\
    (Store.data out ≠ 1%positive).
Proof.
  intros h frame.
  destruct (C8_input_frame_not_mutated h frame frame Effects.no_options)
    as (h' & out & Hrun & _ & Hne & _ & Hsame & _).
  - exists [xc8; x64; x32; xff]. reflexivity.
  - exists [xc8; x64; x32; xff]. reflexivity.
  - reflexivity.
  - exists h', out. split; [exact Hrun|]. split; [exact Hsame|exact Hne].
Defined.

End StoreClaims.

(** ** The staleness protocol of the session manager *)

Section SegmentationClaims.
Import Segmentation.

Lemma onResults_disabled ctx results s :
  isProcessingEnabledRef s = false -> onResults ctx results s = s.
Proof. unfold onResults. by intros ->. Qed.





(** C3 (the guard is the enabled flag alone).  The callback's effect does
    not depend on the session id, and in the trace
    send, [reset()], [enable()], callback the result of the request issued
    under the old session id is cached under the new one and returned by
    [processFrame]. *)
Theorem C3_stale_result_accepted_after_reenable :
  (forall ctx results n s,
     onResults ctx results (set_sessionIdRef n s)
     = set_sessionIdRef n (onResults ctx results s)) /\
  (forall mask : Effects.ImageData,
     let issued := initializeSegmentation mounted in
     let reenabled := run issued [Send; Reset; Enable] in
     let after :=
       step reenabled (Callback true {| segmentationMask := Some mask |}) in
     sessionIdRef issued = 0%float /\ sessionIdRef reenabled = 1%float /\
     sessionIdRef after = 1%float /\
     latestResultRef reenabled = None /\
     latestResultRef after = Some mask /\
     processFrame_return true after = Some mask).
Proof.
  split.
  - intros ctx results n s. unfold onResults. cbn.
    destruct (isProcessingEnabledRef s), (segmentationMask results),
      (canvasRef s), ctx; reflexivity.
  - intros mask. cbv zeta. do 5 (split; [reflexivity|]). reflexivity.
Qed.

End SegmentationClaims.

(** ** The frame scheduler *)

Section SchedulerFacts.
Import Effects Scheduler.

Variable onStatsUpdate : bool.

Local Ltac cases :=
  repeat match goal with
         | |- context [if ?b then _ else _] => destruct b eqn:?
         | |- context [match ?o with Some _ => _ | None => _ end] =>
             destruct o eqn:?
         end.

Lemma recordStats_frame k e s :
  let s' := recordStats onStatsUpdate k e s in
  pending s' = pending s /\ canvas s' = canvas s /\ errors s' = errors s /\
  isProcessingActiveRef s' = isProcessingActiveRef s /\
  isFrameProcessingRef s' = isFrameProcessingRef s /\
  nextHandle s' = nextHandle s /\ animationFrameRef s' = animationFrameRef s /\
  seg s' = seg s.
Proof.
  unfold recordStats. cbv zeta. cases; cbn; auto 10.
Qed.

Lemma processVideoFrame_one_in_flight e s :
  one_in_flight s = true -> one_in_flight (processVideoFrame e s) = true.
Proof.
  unfold one_in_flight, processVideoFrame, rearm, requestAnimationFrame,
    console_error.
  destruct s as [a l f act g sg n p c st er]. cbn.
  destruct p as [|k [|k' p]]; intros H; try discriminate;
    cases; cbn in *; auto; congruence.
Qed.

Lemma rearm_frame s :
  let s' := rearm s in
  pending s' = pending s /\ canvas s' = canvas s /\ errors s' = errors s /\
  isProcessingActiveRef s' = isProcessingActiveRef s /\
  isFrameProcessingRef s' = isFrameProcessingRef s /\
  fpsCounterRef s' = fpsCounterRef s /\ stats s' = stats s /\
  lastFrameTimeRef s' = lastFrameTimeRef s /\ seg s' = seg s.
Proof.
  unfold rearm, requestAnimationFrame. cbv zeta. cases; cbn; auto 10.
Qed.

(** The paths through [resume]: stopped, composited, passed through (no
    mask, or an incompatible one) and caught. *)
Lemma resume_cases k e s :
  let r := resume onStatsUpdate k e s in
  (isProcessingActiveRef s = false /\ r = set_isFrameProcessingRef false s)
  \/ (isProcessingActiveRef s = true /\
      ((exists op,
          r = rearm (set_isFrameProcessingRef false
                       (recordStats onStatsUpdate k e (draw op s))))
       \/ r = rearm (set_isFrameProcessingRef false (console_error s)))).
Proof.
  unfold resume. cbv zeta.
  destruct (isProcessingActiveRef s); cbn [negb]; [right|left; by split].
  split; [reflexivity|].
  destruct (awaited k e s) as [mask|]; [|left; by eexists].
  destruct (areCompatibleDimensions _ _); [|left; by eexists].
  destruct (applyGrayscaleToBackground _ _ _); cbn [mbind option_bind];
    [left; by eexists|by right].
Qed.

Lemma resume_guard k e s :
  isFrameProcessingRef (resume onStatsUpdate k e s) = false.
Proof.
  destruct (resume_cases k e s) as [[_ ->]|[_ [[op ->]| ->]]];
    [reflexivity|..];
    match goal with
    | |- isFrameProcessingRef (rearm ?t) = _ =>
        destruct (rearm_frame t) as (_ & _ & _ & _ & -> & _); reflexivity
    end.
Qed.

Lemma resume_pending k e s :
  pending (resume onStatsUpdate k e s) = pending s.
Proof.
  destruct (resume_cases k e s) as [[_ ->]|[_ [[op ->]| ->]]];
    [reflexivity|..];
    match goal with
    | |- pending (rearm ?t) = _ =>
        destruct (rearm_frame t) as (-> & _)
    end; [|reflexivity].
  unfold set_isFrameProcessingRef. cbn [pending].
  by destruct (recordStats_frame k e (draw op s)) as [-> _].
Qed.

Lemma drawVideoDirectly_frame d s :
  pending (drawVideoDirectly d s) = pending s /\
  isFrameProcessingRef (drawVideoDirectly d s) = isFrameProcessingRef s.
Proof.
  unfold drawVideoDirectly, requestAnimationFrame, draw. cases; cbn; auto.
Qed.

Lemma step_one_in_flight s ev :
  within_run ev = true ->
  one_in_flight s = true ->
  one_in_flight (step onStatsUpdate s ev) = true.
Proof.
  destruct ev as [e|ctx r|i e| | d]; cbn [step within_run]; intros Hev Hinv;
    try discriminate.
  - by apply processVideoFrame_one_in_flight.
  - exact Hinv.
  - destruct (pending s !! i) as [k|] eqn:Hk; [|exact Hinv].
    unfold one_in_flight. rewrite resume_pending. cbn.
    unfold one_in_flight in Hinv.
    destruct (pending s) as [|k0 [|k1 p]]; try discriminate.
    destruct i; [reflexivity|discriminate].
  - unfold one_in_flight in *.
    destruct (drawVideoDirectly_frame d s) as [-> ->]. exact Hinv.
Qed.

Lemma run_one_in_flight trace : forall s,
  forallb within_run trace = true ->
  one_in_flight s = true ->
  one_in_flight (run onStatsUpdate s trace) = true.
Proof.
  induction trace as [|ev trace IH]; intros s Htr Hinv; [exact Hinv|].
  cbn in Htr. apply andb_prop in Htr as [Hev Htr].
  cbn. apply IH; [exact Htr|]. by apply step_one_in_flight.
Qed.

Lemma effect_one_in_flight ready enabled present e d s :
  pending s = [] ->
  one_in_flight
    (step onStatsUpdate s (Effect ready enabled present e d)) = true.
Proof.
  intros Hp. cbn [step]. unfold effect.
  set (s0 := effect_cleanup s).
  assert (Hp0 : pending s0 = []).
  { unfold s0, effect_cleanup. cbv zeta. cases; cbn; exact Hp. }
  destruct (_ || _) eqn:Hbranch.
  - cbv zeta.
    match goal with
    | |- one_in_flight (if _ then drawVideoDirectly d ?t else ?t) = true =>
        assert (Ht : pending t = []); [|unfold one_in_flight;
          destruct (_ && _);
          [destruct (drawVideoDirectly_frame d t) as [-> _]|]; by rewrite Ht]
    end.
    unfold clearCanvases, draw. cases; cbn; exact Hp0.
  - cbv zeta. apply processVideoFrame_one_in_flight.
    unfold one_in_flight, clearCanvases, draw. cases; cbn; by rewrite Hp0.
Qed.

End SchedulerFacts.

Section SchedulerClaims.
Import Effects Scheduler.






(** C6: toggling the effect off and on while a frame's mask request is
    outstanding leaves two calls of [processVideoFrame] suspended at once:
    the cleanup clears the guard flag under the first call, the restarted
    effect suspends a second one, the first call then resumes, finds the
    component running, puts its frame on the canvas and releases the
    guard, and the next tick is not dropped although a call is still in
    flight. *)
Theorem C6_overlap_after_restart :
  let frame := {| width := 1; height := 1;
                  data := [xc8; x64; x32; xff] |} in
  let mask := {| width := 1; height := 1;
                 data := [x00; x00; x00; xff] |} in
  let tick t := {| videoPlaying := true; contexts := true;
                   capture := Some frame; tickTime := t |} in
  let direct := {| drawPlaying := true; drawContext := true;
                   drawVideo := frame |} in
  let toggle enabled t := Effect true enabled true (tick t) direct in
  let loaded := Segmentation.initializeSegmentation Segmentation.mounted in
  let s3 := run true (mounted loaded)
              [toggle true 10%float; toggle false 20%float;
               toggle true 30%float] in
  let s5 := run true s3
              [Results true {| Segmentation.segmentationMask := Some mask |};
               Resume 0 {| sendOk := true; video := frame;
                           endTime := 45%float; now := 46%float |}] in
  let s6 := step true s5 (Tick (tick 50%float)) in
  length (pending s3) = 2 /\
  one_in_flight s3 = false /\
  (exists processedFrame,
     canvas s5 = PutImageData processedFrame :: canvas s3) /\
  length (fpsCounterRef s5) = 1 /\
  length (pending s5) = 1 /\
  isFrameProcessingRef s5 = false /\
  length (pending s6) = 2.
Proof.
  cbv zeta. split; [vm_compute; reflexivity|].
  split; [vm_compute; reflexivity|].
  split; [eexists; vm_compute; reflexivity|].
  split; [vm_compute; reflexivity|].
  split; [vm_compute; reflexivity|].
  split; vm_compute; reflexivity.
Qed.

End SchedulerClaims.

(** ** Further properties of the compositor *)

Section CompositorExtras.
Import JS Effects.

Local Ltac channel j :=
  pose proof (Nat.div_mod_eq j 4);
  pose proof (Nat.mod_upper_bound j 4 ltac:(lia)).

Lemma new_ImageData_Some d sw sh img :
  new_ImageData d sw sh = Some img ->
  img = {| width := sw; height := sh; data := d |} /\
  wf_ImageData img = true.
Proof.
  unfold new_ImageData. cbv zeta.
  set (len := N.of_nat (length d)).
  destruct (sw =? 0)%N eqn:Hsw; [discriminate|].
  destruct (len =? 0)%N eqn:Hlen; [discriminate|].
  destruct (len mod 4 =? 0)%N eqn:H4; [|discriminate].
  destruct ((len / 4) mod sw =? 0)%N eqn:Hrow; [|discriminate].
  destruct ((len / 4) / sw =? sh)%N eqn:Hsh; [|discriminate].
  cbn [negb]. intros [= <-]. split; [reflexivity|].
  apply N.eqb_neq in Hsw, Hlen. apply N.eqb_eq in H4, Hrow, Hsh.
  pose proof (N.div_mod len 4 ltac:(lia)) as E4.
  pose proof (N.div_mod (len / 4) sw Hsw) as Erow.
  rewrite Hrow, Hsh, N.add_0_r in Erow. rewrite Erow, H4, N.add_0_r in E4.
  unfold wf_ImageData. cbn [width height data]. fold len.
  assert (sh <> 0)%N by (intros ->; lia).
  repeat (apply andb_true_intro; split).
  - apply negb_true_iff, N.eqb_neq, Hsw.
  - by apply negb_true_iff, N.eqb_neq.
  - apply N.eqb_eq, E4.
Qed.

(** The compositor raises exactly on a frame that breaks the [ImageData]
    invariant; no mask and no option makes it raise. *)
Theorem composite_raises_iff_ill_formed (f m : ImageData)
    (o : ProcessingOptions) :
  is_Some (applyGrayscaleToBackground f m o) <-> wf_ImageData f = true.
Proof.
  split.
  - intros [out Hout]. unfold applyGrayscaleToBackground in Hout.
    cbv zeta in Hout.
    destruct (new_ImageData _ _ _) as [img|] eqn:Himg; [|discriminate].
    apply new_ImageData_Some in Himg as [-> Hwf]. by destruct f.
  - intros Hwf. rewrite (applyGrayscaleToBackground_wf f m o Hwf). by eexists.
Qed.

(** The output has the frame's width, height and number of bytes, and is
    a well-formed [ImageData] again, whatever the mask and the options. *)
Theorem composite_preserves_dimensions (f m : ImageData)
    (o : ProcessingOptions) :
  wf_ImageData f = true ->
  exists out,
    applyGrayscaleToBackground f m o = Some out /\
    width out = width f /\ height out = height f /\
    length (data out) = length (data f) /\
    wf_ImageData out = true /\
    areCompatibleDimensions f out = true.
Proof.
  intros Hwf. eexists. split; [by apply applyGrayscaleToBackground_wf|].
  cbn [width height data]. rewrite grayscaleLoop_length.
  split; [reflexivity|]. split; [reflexivity|]. split; [reflexivity|].
  split; [exact (composite_once_wf f m o Hwf)|].
  unfold areCompatibleDimensions. cbn [width height].
  by rewrite !N.eqb_refl.
Qed.

Lemma composite_preserves_dimensions_witness :
  exists out,
    applyGrayscaleToBackground
      {| width := 1; height := 2;
         data := [x0a; x14; x1e; xff; x28; x32; x3c; x80] |}
      {| width := 3; height := 1; data := [x00] |} no_options = Some out /\
    width out = 1%N /\ height out = 2%N /\
    length (data out) = 8 /\
    wf_ImageData out = true /\
    areCompatibleDimensions
      {| width := 1; height := 2;
         data := [x0a; x14; x1e; xff; x28; x32; x3c; x80] |} out = true.
Proof.
  apply (composite_preserves_dimensions
           {| width := 1; height := 2;
              data := [x0a; x14; x1e; xff; x28; x32; x3c; x80] |}
           {| width := 3; height := 1; data := [x00] |} no_options).
  reflexivity.
Defined.

(** Every fourth byte (the alpha channel) of the output is the frame's,
    for every mask, threshold and grayscale method. *)
Theorem composite_keeps_alpha (f m : ImageData) (o : ProcessingOptions)
    (j : nat) :
  wf_ImageData f = true ->
  j mod 4 = 3 ->
  exists out,
    applyGrayscaleToBackground f m o = Some out /\
    data out !! j = data f !! j.
Proof.
  intros Hwf Hj. eexists. split; [by apply applyGrayscaleToBackground_wf|].
  cbn [data]. rewrite grayscaleLoop_pixels. unfold pixelOut. rewrite Hj.
  change (3 <? 3) with false. by rewrite andb_false_r.
Qed.

Lemma composite_keeps_alpha_witness :
  exists out,
    applyGrayscaleToBackground
      {| width := 1; height := 1; data := [xc8; x64; x32; x7f] |}
      {| width := 1; height := 1; data := [x00; x00; x00; x00] |}
      {| threshold := Some 127%float; useWeightedGrayscale := Some true |}
    = Some out /\
    data out !! 3 = Some x7f.
Proof.
  apply (composite_keeps_alpha
           {| width := 1; height := 1; data := [xc8; x64; x32; x7f] |}
           {| width := 1; height := 1; data := [x00; x00; x00; x00] |}
           {| threshold := Some 127%float; useWeightedGrayscale := Some true |}
           3); reflexivity.
Defined.

Lemma composite_Some_wf f m o out :
  applyGrayscaleToBackground f m o = Some out ->
  wf_ImageData f = true /\ out = composite_once f m o.
Proof.
  intros Hout.
  assert (Hwf : wf_ImageData f = true).
  { unfold applyGrayscaleToBackground in Hout. cbv zeta in Hout.
    destruct (new_ImageData _ _ _) as [img|] eqn:Himg; [|discriminate].
    apply new_ImageData_Some in Himg as [-> Hwf]. by destruct f. }
  split; [exact Hwf|].
  rewrite (applyGrayscaleToBackground_wf f m o Hwf) in Hout.
  by injection Hout as <-.
Qed.

Lemma composite_ill_formed f m o :
  wf_ImageData f = false -> applyGrayscaleToBackground f m o = None.
Proof.
  intros Hwf. destruct (applyGrayscaleToBackground f m o) eqn:Hout; [|done].
  apply composite_Some_wf in Hout as [Hwf' _]. congruence.
Qed.

(** [pixelOut] at channel [c] of the pixel that starts at [p]. *)
Lemma pixelOut_channel md thr weighted fd p c :
  p mod 4 = 0 -> c < 4 ->
  pixelOut md thr weighted fd (p + c)
  = if (toNumber (md !! p) <? thr)%float && (c <? 3) && (p + c <? length fd)
    then Some (ToUint8Clamp (grayValue weighted (toNumber (fd !! p))
                               (toNumber (fd !! (p + 1)))
                               (toNumber (fd !! (p + 2)))))
    else fd !! (p + c).
Proof.
  intros Hp Hc. unfold pixelOut. cbv zeta.
  assert (Hmod : (p + c) mod 4 = c) by (channel p; channel (p + c); lia).
  rewrite Hmod. by replace (p + c - c) with p by lia.
Qed.

Lemma pixel_within f p c :
  wf_ImageData f = true -> p mod 4 = 0 -> p < length (data f) -> c < 4 ->
  p + c < length (data f).
Proof.
  intros Hwf Hp Hlt Hc. pose proof (wf_length_mod4 f Hwf).
  channel p. channel (length (data f)). lia.
Qed.

(** What the compositor does to one pixel, for any mask: when the mask
    byte at the pixel's first index is below the threshold, red, green
    and blue all become the gray value of the pixel's old colour;
    otherwise (also when the mask has no byte there) they stay; alpha
    stays in both cases. *)
Theorem composite_per_pixel (f m : ImageData) (o : ProcessingOptions)
    (p : nat) :
  wf_ImageData f = true -> p mod 4 = 0 -> p < length (data f) ->
  let thr := default DEFAULT_THRESHOLD (threshold o) in
  let gray :=
    ToUint8Clamp
      (grayValue (default false (useWeightedGrayscale o))
         (toNumber (data f !! p)) (toNumber (data f !! (p + 1)))
         (toNumber (data f !! (p + 2)))) in
  exists out,
    applyGrayscaleToBackground f m o = Some out /\
    (if (toNumber (data m !! p) <? thr)%float
     then data out !! p = Some gray /\ data out !! (p + 1) = Some gray /\
          data out !! (p + 2) = Some gray
     else data out !! p = data f !! p /\
          data out !! (p + 1) = data f !! (p + 1) /\
          data out !! (p + 2) = data f !! (p + 2)) /\
    data out !! (p + 3) = data f !! (p + 3).
Proof.
  intros Hwf Hp Hlt thr gray. eexists.
  split; [by apply applyGrayscaleToBackground_wf|]. cbn [data].
  pose proof (pixel_within f p 0 Hwf Hp Hlt ltac:(lia)) as H0.
  pose proof (pixel_within f p 1 Hwf Hp Hlt ltac:(lia)) as H1.
  pose proof (pixel_within f p 2 Hwf Hp Hlt ltac:(lia)) as H2.
  apply Nat.ltb_lt in H0, H1, H2.
  pose proof (pixelOut_channel (data m) thr
                (default false (useWeightedGrayscale o)) (data f) p) as Hch.
  pose proof (Hch 0 Hp ltac:(lia)) as E0. rewrite Nat.add_0_r in E0.
  rewrite Nat.add_0_r in H0.
  pose proof (Hch 1 Hp ltac:(lia)) as E1.
  pose proof (Hch 2 Hp ltac:(lia)) as E2.
  pose proof (Hch 3 Hp ltac:(lia)) as E3.
  rewrite !grayscaleLoop_pixels. fold thr. rewrite E0, E1, E2, E3.
  rewrite H0, H1, H2. fold gray.
  change (0 <? 3) with true. change (1 <? 3) with true.
  change (2 <? 3) with true. change (3 <? 3) with false.
  rewrite andb_false_r. cbn [andb].
  split; [|reflexivity].
  destruct (_ <? thr)%float; cbn [andb]; auto.
Qed.

Lemma composite_per_pixel_witness :
  exists out,
    applyGrayscaleToBackground
      {| width := 2; height := 1;
         data := [xc8; x64; x32; xff; x0a; x14; x1e; x80] |}
      {| width := 2; height := 1;
         data := [x00; x00; x00; xff; xff; xff; xff; xff] |}
      {| threshold := Some 127%float; useWeightedGrayscale := None |}
    = Some out /\
    (data out !! 4 = Some x0a /\ data out !! 5 = Some x14 /\
     data out !! 6 = Some x1e) /\
    data out !! 7 = Some x80.
Proof.
  apply (composite_per_pixel
           {| width := 2; height := 1;
              data := [xc8; x64; x32; xff; x0a; x14; x1e; x80] |}
           {| width := 2; height := 1;
              data := [x00; x00; x00; xff; xff; xff; xff; xff] |}
           {| threshold := Some 127%float; useWeightedGrayscale := None |}
           4); [reflexivity|reflexivity|cbn; lia].
Defined.

(** Only every fourth byte of the mask is read: two masks that agree on
    the first byte of each of the frame's pixels give the same result,
    the same exception included. *)
Theorem composite_reads_first_mask_channel (f m m' : ImageData)
    (o : ProcessingOptions) :
  (forall p, p mod 4 = 0 -> p < length (data f) ->
     data m !! p = data m' !! p) ->
  applyGrayscaleToBackground f m o = applyGrayscaleToBackground f m' o.
Proof.
  intros Hagree. destruct (wf_ImageData f) eqn:Hwf.
  - rewrite !applyGrayscaleToBackground_wf by exact Hwf. do 2 f_equal.
    apply list_eq. intros j. rewrite !grayscaleLoop_pixels.
    unfold pixelOut. cbv zeta.
    destruct (j <? length (data f)) eqn:Hj;
      [|by rewrite !andb_false_r].
    apply Nat.ltb_lt in Hj.
    rewrite (Hagree (j - j mod 4)); [reflexivity| |channel j; lia].
    channel j. channel (j - j mod 4). lia.
  - by rewrite !composite_ill_formed.
Qed.

Lemma composite_reads_first_mask_channel_witness :
  applyGrayscaleToBackground
    {| width := 1; height := 1; data := [xc8; x64; x32; xff] |}
    {| width := 1; height := 1; data := [x10; x00; x00; x00] |} no_options
  = applyGrayscaleToBackground
      {| width := 1; height := 1; data := [xc8; x64; x32; xff] |}
      {| width := 9; height := 9; data := [x10; xff; xee] |} no_options.
Proof.
  apply (composite_reads_first_mask_channel
           {| width := 1; height := 1; data := [xc8; x64; x32; xff] |}
           {| width := 1; height := 1; data := [x10; x00; x00; x00] |}
           {| width := 9; height := 9; data := [x10; xff; xee] |}
           no_options).
  intros p Hp Hlt. cbn in Hlt.
  destruct p as [|[|[|[|p]]]]; [reflexivity|discriminate..|lia].
Defined.

(** Compositing is idempotent for every mask: applying the same mask
    and options to the output gives the output again. *)
Theorem composite_idempotent (f m out : ImageData) (o : ProcessingOptions) :
  applyGrayscaleToBackground f m o = Some out ->
  applyGrayscaleToBackground out m o = Some out.
Proof.
  intros Hout. apply composite_Some_wf in Hout as [Hwf ->].
  pose proof (composite_once_wf f m o Hwf) as Hwf'.
  rewrite (applyGrayscaleToBackground_wf _ m o Hwf').
  unfold composite_once at 1 2 5. cbn [width height]. do 2 f_equal.
  set (thr := default DEFAULT_THRESHOLD (threshold o)).
  set (weighted := default false (useWeightedGrayscale o)).
  assert (Hlen : length (data (composite_once f m o)) = length (data f))
    by apply grayscaleLoop_length.
  assert (Hlook : forall i, data (composite_once f m o) !! i
                            = pixelOut (data m) thr weighted (data f) i)
    by (intros i; apply grayscaleLoop_pixels).
  apply list_eq. intros j. rewrite grayscaleLoop_pixels.
  fold thr weighted. unfold pixelOut at 1. cbv zeta.
  destruct (_ && _ && _) eqn:Hcond; [|reflexivity].
  apply andb_prop in Hcond as [Hcond Hj]. apply andb_prop in Hcond as [Hm Hc].
  rewrite Hlen in Hj. apply Nat.ltb_lt in Hj, Hc.
  set (p := j - j mod 4) in *.
  assert (Hp : p mod 4 = 0) by (unfold p; channel j; channel (j - j mod 4); lia).
  assert (Hplt : p < length (data f)) by (unfold p; lia).
  assert (Hpx : forall c, c < 3 ->
            data (composite_once f m o) !! (p + c)
            = Some (ToUint8Clamp
                      (grayValue weighted (toNumber (data f !! p))
                         (toNumber (data f !! (p + 1)))
                         (toNumber (data f !! (p + 2)))))).
  { intros c Hc3. rewrite Hlook, pixelOut_channel by (done || lia).
    pose proof (pixel_within f p c Hwf Hp Hplt ltac:(lia)) as Hin.
    rewrite Hm. apply Nat.ltb_lt in Hc3 as ->.
    by apply Nat.ltb_lt in Hin as ->. }
  pose proof (Hpx 0 ltac:(lia)) as E0. rewrite Nat.add_0_r in E0.
  rewrite E0, (Hpx 1), (Hpx 2) by lia. cbn [toNumber].
  rewrite gray_fixed_point.
  replace j with (p + j mod 4) at 1 by (unfold p; channel j; lia).
  symmetry. apply Hpx. exact Hc.
Qed.

Lemma composite_idempotent_witness :
  applyGrayscaleToBackground
    {| width := 2; height := 1;
       data := [x7c; x7c; x7c; xff; x0a; x14; x1e; x80] |}
    {| width := 2; height := 1;
       data := [x00; x00; x00; xff; xff; xff; xff; xff] |}
    {| threshold := Some 127%float; useWeightedGrayscale := Some true |}
  = Some {| width := 2; height := 1;
            data := [x7c; x7c; x7c; xff; x0a; x14; x1e; x80] |}.
Proof.
  apply (composite_idempotent
           {| width := 2; height := 1;
              data := [xc8; x64; x32; xff; x0a; x14; x1e; x80] |}).
  vm_compute. reflexivity.
Defined.

Lemma ltb_zero_false_cases (t : float) :
  (0 <? t)%float = false ->
  match Prim2SF t with
  | S754_finite false _ _ | S754_infinity false => False
  | _ => True
  end.
Proof.
  rewrite ltb_spec. change (Prim2SF 0) with (S754_zero false).
  by destruct (Prim2SF t) as [| [|] | | [|] ? ?].
Qed.

Lemma sample_not_below_nonpositive (v : option byte) (t : float) :
  (0 <? t)%float = false -> (toNumber v <? t)%float = false.
Proof.
  intros Ht. destruct v as [c|]; [|apply ltb_nan_l]. cbn [toNumber].
  apply ltb_zero_false_cases in Ht. rewrite ltb_spec.
  destruct (Prim2SF t) as [| [|] | | [|] ? ?]; try done;
    destruct c; reflexivity.
Qed.

(** A threshold that is zero, negative or NaN switches the effect off:
    the output is the frame, for every mask. *)
Theorem composite_nonpositive_threshold_identity (f m : ImageData)
    (o : ProcessingOptions) (t : float) :
  wf_ImageData f = true ->
  threshold o = Some t ->
  (0 <? t)%float = false ->
  applyGrayscaleToBackground f m o = Some f.
Proof.
  intros Hwf Ho Ht. apply composite_identity; [exact Hwf|].
  intros i _ _. rewrite Ho. cbn [default].
  by apply sample_not_below_nonpositive.
Qed.

Lemma composite_nonpositive_threshold_identity_witness :
  applyGrayscaleToBackground
    {| width := 1; height := 1; data := [xc8; x64; x32; xff] |}
    {| width := 1; height := 1; data := [x00; x00; x00; x00] |}
    {| threshold := Some nan; useWeightedGrayscale := None |}
  = Some {| width := 1; height := 1; data := [xc8; x64; x32; xff] |}.
Proof.
  apply (composite_nonpositive_threshold_identity
           {| width := 1; height := 1; data := [xc8; x64; x32; xff] |}
           {| width := 1; height := 1; data := [x00; x00; x00; x00] |}
           {| threshold := Some nan; useWeightedGrayscale := None |} nan);
    reflexivity.
Defined.

Lemma below_default_threshold (c : byte) :
  (byte_to_float c <? DEFAULT_THRESHOLD)%float = negb (Byte.eqb c xff).
Proof. destruct c; vm_compute; reflexivity. Qed.

(** The call the scheduler makes (no options): a pixel keeps its colour
    exactly when its mask byte is 255 or the mask has no byte for it;
    every other pixel gets the rounded average of its red, green and
    blue in all three. *)
Theorem default_call_keeps_only_confidence_255 (f m : ImageData) (p : nat) :
  wf_ImageData f = true -> p mod 4 = 0 -> p < length (data f) ->
  let gray :=
    ToUint8Clamp
      (grayValue false (toNumber (data f !! p))
         (toNumber (data f !! (p + 1))) (toNumber (data f !! (p + 2)))) in
  exists out,
    applyGrayscaleToBackground f m no_options = Some out /\
    (if match data m !! p with
        | Some c => Byte.eqb c xff
        | None => true
        end
     then forall c, c < 4 -> data out !! (p + c) = data f !! (p + c)
     else forall c, c < 3 -> data out !! (p + c) = Some gray).
Proof.
  intros Hwf Hp Hlt gray. eexists.
  split; [by apply applyGrayscaleToBackground_wf|]. cbn [data default
    threshold useWeightedGrayscale no_options].
  assert (Hbelow : (toNumber (data m !! p) <? DEFAULT_THRESHOLD)%float
                   = negb match data m !! p with
                          | Some c => Byte.eqb c xff
                          | None => true
                          end).
  { destruct (data m !! p) as [c|]; cbn [toNumber];
      [apply below_default_threshold|apply ltb_nan_l]. }
  destruct (match data m !! p with Some c => _ | None => _ end);
    cbn [negb] in Hbelow; intros c Hc;
    rewrite grayscaleLoop_pixels, pixelOut_channel, Hbelow by (done || lia);
    [reflexivity|].
  pose proof (pixel_within f p c Hwf Hp Hlt ltac:(lia)) as Hin.
  apply Nat.ltb_lt in Hin as ->. by apply Nat.ltb_lt in Hc as ->.
Qed.

Lemma default_call_keeps_only_confidence_255_witness :
  exists out,
    applyGrayscaleToBackground
      {| width := 1; height := 1; data := [xc8; x64; x32; xff] |}
      {| width := 1; height := 1; data := [xfe; xfe; xfe; xff] |}
      no_options = Some out /\
    forall c, c < 3 -> data out !! (0 + c) = Some x75.
Proof.
  apply (default_call_keeps_only_confidence_255
           {| width := 1; height := 1; data := [xc8; x64; x32; xff] |}
           {| width := 1; height := 1; data := [xfe; xfe; xfe; xff] |} 0);
    [reflexivity|reflexivity|cbn; lia].
Defined.

End CompositorExtras.

(** ** Further properties of the store-level compositor *)

Section StoreExtras.
Import JS.

(** On a store, the call does exactly what the value-level function
    does, case by case: it raises when that raises, and otherwise
    allocates one new array, the first free location, holding the
    value-level result, and changes nothing else. *)
Theorem store_composite_refines (h : gmap Store.loc (list byte))
    (frame mask : Store.ImageData) (options : Effects.ProcessingOptions) :
  Store.data mask ∈ dom h ->
  Store.applyGrayscaleToBackground h frame mask options
  = (λ v, (<[fresh (dom h) := Effects.data v]> h,
           {| Store.data := fresh (dom h);
              Store.width := Effects.width v;
              Store.height := Effects.height v |}))
    <$> Effects.applyGrayscaleToBackground (Store.value h frame)
          (Store.value h mask) options.
Proof.
  intros Hmask.
  unfold Store.applyGrayscaleToBackground, Store.alloc,
    Effects.applyGrayscaleToBackground.
  set (c := fresh (dom h)).
  assert (Hcm : c ≠ Store.data mask).
  { intros Heq. apply (is_fresh (dom h)). fold c. by rewrite Heq. }
  rewrite store_new_ImageData, contents_insert_eq.
  unfold Store.value. cbn [Effects.data Effects.width Effects.height].
  destruct (Effects.new_ImageData _ _ _) as [img|] eqn:Himg; [|reflexivity].
  apply new_ImageData_Some in Himg as [-> _].
  cbn [fmap option_fmap option_map mbind option_bind Store.data
       Effects.data Effects.width Effects.height].
  rewrite contents_insert_eq.
  rewrite (store_grayscaleLoop _ 0 _ c (Store.data mask) _ _ _
             (lookup_insert_eq _ _ _) Hcm).
  by rewrite contents_insert_ne, insert_insert_eq.
Qed.

Lemma store_composite_refines_witness :
  let h : gmap Store.loc (list byte) :=
    {[ 1%positive := [xc8; x64; x32; xff] ]} in
  let frame := {| Store.data := 1%positive; Store.width := 1;
                  Store.height := 1 |} in
  Store.applyGrayscaleToBackground h frame frame Effects.no_options
  = (λ v, (<[fresh (dom h) := Effects.data v]> h,
           {| Store.data := fresh (dom h);
              Store.width := Effects.width v;
              Store.height := Effects.height v |}))
    <$> Effects.applyGrayscaleToBackground (Store.value h frame)
          (Store.value h frame) Effects.no_options.
Proof.
  intros h frame.
  apply (store_composite_refines h frame frame Effects.no_options).
  apply elem_of_dom. exists [xc8; x64; x32; xff]. reflexivity.
Defined.

End StoreExtras.

(** ** Further properties of the session manager *)

Section SegmentationExtras.
Import Segmentation.

(** Only [reset] writes [sessionIdRef], and each call adds one to it in
    JavaScript's arithmetic: after any sequence of calls and callbacks it
    is the initial value with [+= 1] applied once per [reset]. *)
Theorem sessionId_counts_resets (trace : list event) : forall s,
  sessionIdRef (run s trace)
  = Nat.iter (length (List.filter is_Reset trace))
      (fun id => (id + 1)%float) (sessionIdRef s).
Proof.
  induction trace as [|ev trace IH]; intros s; [reflexivity|].
  cbn [run fold_left]. fold (run (step s ev) trace). rewrite IH.
  destruct ev as [|ctx r| | |]; cbn [step List.filter is_Reset length];
    try reflexivity.
  - unfold onResults. repeat case_match; reflexivity.
  - by rewrite Nat.iter_succ_r.
Qed.

Lemma closed_invariant (trace : list event) : forall s,
  segmentationRef s = false -> canvasRef s = false ->
  latestResultRef s = None ->
  segmentationRef (run s trace) = false /\
  canvasRef (run s trace) = false /\
  latestResultRef (run s trace) = None.
Proof.
  induction trace as [|ev trace IH]; intros s Hs Hc Hl; [by auto|].
  cbn [run fold_left]. apply IH;
    destruct ev as [|ctx r| | |]; cbn [step]; try done;
    unfold onResults; rewrite ?Hc; repeat case_match; done.
Qed.

(** After [cleanup] the manager is closed for good: whatever is called
    or delivered afterwards, [enable] included, no frame is sent, no mask
    is cached and [processFrame] gives [null]. *)
Theorem cleanup_is_final (trace : list event) (s : state) :
  let s' := run (cleanup s) trace in
  processFrame_send s' = false /\
  latestResultRef s' = None /\
  forall sendOk, processFrame_return sendOk s' = None.
Proof.
  intros s'.
  destruct (closed_invariant trace (cleanup s)) as (Hs & _ & Hl); try done.
  fold s' in Hs, Hl. unfold processFrame_send, processFrame_return.
  rewrite Hs, Hl. split; [done|]. split; [done|]. by intros [].
Qed.

(** A cached mask is one the provider delivered: with the cache empty at
    first, whatever it holds later was the mask of a callback that found
    a canvas context. *)
Theorem cached_mask_was_delivered (trace : list event) : forall s m,
  latestResultRef (run s trace) = Some m ->
  latestResultRef s = Some m \/
  In (Callback true {| segmentationMask := Some m |}) trace.
Proof.
  induction trace as [|ev trace IH]; intros s m Hm; [by left|].
  cbn [run fold_left] in Hm. apply IH in Hm as [Hm|Hin];
    [|right; by right].
  destruct ev as [|ctx r| | |]; cbn [step] in Hm; try by (left || discriminate).
  unfold onResults in Hm. destruct r as [[mask|]].
  - cbn [segmentationMask] in Hm.
    destruct (negb (isProcessingEnabledRef s)); [by left|].
    destruct (negb (canvasRef s)); [by left|].
    destruct ctx; cbn [negb] in Hm; [|by left].
    cbn in Hm. injection Hm as ->. right. by left.
  - cbn [segmentationMask] in Hm.
    destruct (negb (isProcessingEnabledRef s)); by left.
Qed.

Lemma cached_mask_was_delivered_witness :
  let m := {| Effects.width := 1; Effects.height := 1;
              Effects.data := [xff; xff; xff; xff] |} in
  latestResultRef (initializeSegmentation mounted) = Some m \/
  In (Callback true {| segmentationMask := Some m |})
     [Send; Callback true {| segmentationMask := Some m |}].
Proof.
  intros m.
  apply (cached_mask_was_delivered
           [Send; Callback true {| segmentationMask := Some m |}]
           (initializeSegmentation mounted) m).
  reflexivity.
Defined.

(** A manager whose provider never loaded (or was closed) sends no
    frame, whatever is called on it: only [initializeSegmentation] sets
    [segmentationRef]. *)
Theorem unloaded_manager_never_sends (trace : list event) : forall s,
  segmentationRef s = false ->
  segmentationRef (run s trace) = false /\
  processFrame_send (run s trace) = false.
Proof.
  induction trace as [|ev trace IH]; intros s Hs.
  - unfold processFrame_send. cbn. by rewrite Hs.
  - cbn [run fold_left]. apply IH.
    destruct ev as [|ctx r| | |]; cbn [step]; try done.
    unfold onResults. repeat case_match; done.
Qed.

Lemma unloaded_manager_never_sends_witness :
  segmentationRef (run mounted [Enable; Send; Reset; Enable]) = false /\
  processFrame_send (run mounted [Enable; Send; Reset; Enable]) = false.
Proof.
  apply (unloaded_manager_never_sends [Enable; Send; Reset; Enable] mounted).
  reflexivity.
Defined.

End SegmentationExtras.

(** ** Further properties of the frame scheduler *)

Section SchedulerExtras.
Import Effects Scheduler.

Local Ltac cases :=
  repeat match goal with
         | |- context [if ?b then _ else _] => destruct b eqn:?
         | |- context [match ?o with Some _ => _ | None => _ end] =>
             destruct o eqn:?
         end.






Lemma recordStats_window onStatsUpdate k e s :
  length (fpsCounterRef s) <= 30 ->
  length (fpsCounterRef (recordStats onStatsUpdate k e s)) <= 30.
Proof.
  intros Hn. unfold recordStats. cbv zeta.
  destruct (0 <? _)%float; [|exact Hn].
  set (pushed := fpsCounterRef s ++ _).
  assert (Hp : length pushed = S (length (fpsCounterRef s)))
    by (unfold pushed; rewrite length_app; cbn [length]; lia).
  assert (length (if 30 <? length pushed then tail pushed else pushed) <= 30).
  { destruct (30 <? length pushed) eqn:Hlt.
    - destruct pushed; cbn [tail length] in *; lia.
    - apply Nat.ltb_ge in Hlt. lia. }
  by destruct onStatsUpdate.
Qed.

(** Within one run of the effect, started when no earlier call is
    still waiting, at most one call of [processVideoFrame] is suspended
    at any time, and the guard flag is set whenever one is. *)
Theorem one_run_at_most_one_in_flight (onStatsUpdate : bool) (s : state)
    (isVideoReady effectEnabled present : bool) (e : TickEnv) (d : DrawEnv)
    (trace : list event) :
  pending s = [] ->
  forallb within_run trace = true ->
  let s' := run onStatsUpdate
              (step onStatsUpdate s
                 (Effect isVideoReady effectEnabled present e d)) trace in
  length (pending s') <= 1 /\
  (pending s' <> [] -> isFrameProcessingRef s' = true).
Proof.
  intros Hp Htr s'.
  pose proof (run_one_in_flight onStatsUpdate trace _ Htr
                (effect_one_in_flight onStatsUpdate isVideoReady
                   effectEnabled present e d s Hp)) as Hinv.
  fold s' in Hinv. unfold one_in_flight in Hinv.
  destruct (pending s') as [|k [|k' l]]; cbn [length];
    [split; [lia|done]|split; [lia|done]|discriminate].
Qed.

Lemma one_run_at_most_one_in_flight_witness :
  let frame := {| width := 1; height := 1;
                  data := [xc8; x64; x32; xff] |} in
  let tick := {| videoPlaying := true; contexts := true;
                 capture := Some frame; tickTime := 10%float |} in
  let direct := {| drawPlaying := true; drawContext := true;
                   drawVideo := frame |} in
  let s' := run true
              (step true
                 (mounted (Segmentation.initializeSegmentation
                             Segmentation.mounted))
                 (Effect true true true tick direct)) [Tick tick; Tick tick] in
  length (pending s') <= 1 /\
  (pending s' <> [] -> isFrameProcessingRef s' = true).
Proof.
  intros frame tick direct.
  apply (one_run_at_most_one_in_flight true
           (mounted (Segmentation.initializeSegmentation
                       Segmentation.mounted))
           true true true tick direct [Tick tick; Tick tick]);
    reflexivity.
Defined.

Lemma processVideoFrame_fps e s :
  fpsCounterRef (processVideoFrame e s) = fpsCounterRef s.
Proof.
  unfold processVideoFrame, rearm, requestAnimationFrame, console_error.
  cbv zeta. cases; reflexivity.
Qed.

Lemma drawVideoDirectly_fps d s :
  fpsCounterRef (drawVideoDirectly d s) = fpsCounterRef s.
Proof.
  unfold drawVideoDirectly, requestAnimationFrame, draw. cases; reflexivity.
Qed.

Lemma resume_window onStatsUpdate k e s :
  length (fpsCounterRef s) <= 30 ->
  length (fpsCounterRef (resume onStatsUpdate k e s)) <= 30.
Proof.
  intros Hn.
  destruct (resume_cases onStatsUpdate k e s) as [[_ ->]|[_ [[op ->]| ->]]];
    [exact Hn|..];
    match goal with
    | |- context [rearm ?t] =>
        destruct (rearm_frame t) as (_ & _ & _ & _ & _ & -> & _)
    end; [|exact Hn].
  unfold set_isFrameProcessingRef. cbn [fpsCounterRef].
  by apply recordStats_window.
Qed.

Lemma step_window onStatsUpdate s ev :
  length (fpsCounterRef s) <= 30 ->
  length (fpsCounterRef (step onStatsUpdate s ev)) <= 30.
Proof.
  intros Hn. destruct ev as [e|ctx r|i e|ready enabled present e d|d];
    cbn [step].
  - by rewrite processVideoFrame_fps.
  - exact Hn.
  - destruct (pending s !! i); [|exact Hn]. by apply resume_window.
  - unfold effect. cbv zeta.
    destruct (_ || _); [|rewrite processVideoFrame_fps; cbn; lia].
    assert (Hc : fpsCounterRef (effect_cleanup s) = fpsCounterRef s)
      by (unfold effect_cleanup; cbv zeta; cases; reflexivity).
    destruct (_ && _); rewrite ?drawVideoDirectly_fps;
      destruct (negb enabled); cbn [fpsCounterRef set_lastFrameTimeRef
        set_fpsCounterRef set_isFrameProcessingRef set_isProcessingActiveRef
        length]; rewrite ?Hc; lia.
  - by rewrite drawVideoDirectly_fps.
Qed.

(** The FPS window never holds more than 30 samples, whatever happens to
    the component after it is mounted. *)
Theorem fps_window_bounded (onStatsUpdate : bool) (sg : Segmentation.state)
    (trace : list event) :
  length (fpsCounterRef (run onStatsUpdate (mounted sg) trace)) <= 30.
Proof.
  assert (H : forall s, length (fpsCounterRef s) <= 30 ->
                length (fpsCounterRef (run onStatsUpdate s trace)) <= 30).
  { induction trace as [|ev trace IH]; intros s Hn; [exact Hn|].
    cbn [run fold_left]. apply IH. by apply step_window. }
  apply H. cbn. lia.
Qed.




(** A running component never stalls: a suspended call that resumes
    releases the guard and arms the next frame on every path, the
    [catch] included, and a call that starts with the guard clear either
    suspends with the guard set or releases it and arms the next frame. *)
Theorem running_call_always_rearms (onStatsUpdate : bool) (k : suspended)
    (e : ResumeEnv) (t : TickEnv) (s : state) :
  isProcessingActiveRef s = true ->
  (let s' := resume onStatsUpdate k e s in
   isFrameProcessingRef s' = false /\
   animationFrameRef s' = Some (nextHandle s) /\
   pending s' = pending s) /\
  (isFrameProcessingRef s = false ->
   let s' := processVideoFrame t s in
   (isFrameProcessingRef s' = true /\
    exists k', pending s' = pending s ++ [k']) \/
   (isFrameProcessingRef s' = false /\
    animationFrameRef s' = Some (nextHandle s) /\
    pending s' = pending s)).
Proof.
  intros Ha. split.
  - cbv zeta. split; [apply resume_guard|]. split; [|apply resume_pending].
    destruct (resume_cases onStatsUpdate k e s)
      as [[Hf _]|[_ [[op ->]| ->]]]; [congruence|..].
    + destruct (recordStats_frame onStatsUpdate k e (draw op s))
        as (_ & _ & _ & Hact & _ & Hn & _).
      unfold rearm, set_isFrameProcessingRef. cbn [isProcessingActiveRef].
      rewrite Hact. cbn [isProcessingActiveRef draw set_canvas].
      rewrite Ha.
      unfold requestAnimationFrame, set_nextHandle, set_animationFrameRef.
      cbn [animationFrameRef nextHandle]. by rewrite Hn.
    + unfold rearm. cbn. by rewrite Ha.
  - intros Hg. unfold processVideoFrame, rearm, requestAnimationFrame,
      console_error. cbv zeta. rewrite Ha, Hg. cbn [negb].
    cases; cbn in *; try congruence; eauto 6.
Qed.

Lemma running_call_always_rearms_witness :
  let frame := {| width := 1; height := 1; data := [] |} in
  let mask := {| width := 1; height := 1;
                 data := [x00; x00; x00; xff] |} in
  let sg := Segmentation.set_latestResultRef (Some mask)
              (Segmentation.initializeSegmentation Segmentation.mounted) in
  let s := set_isProcessingActiveRef true (mounted sg) in
  let k := {| frameData := frame; startTime := 5%float; sent := true |} in
  let e := {| sendOk := true; video := mask;
              endTime := 9%float; now := 10%float |} in
  let t := {| videoPlaying := true; contexts := true; capture := None;
              tickTime := 11%float |} in
  (let s' := resume true k e s in
   isFrameProcessingRef s' = false /\
   animationFrameRef s' = Some 0 /\ pending s' = [] /\ errors s' = 1) /\
  (let s' := processVideoFrame t s in
   (isFrameProcessingRef s' = true /\ exists k', pending s' = [] ++ [k']) \/
   (isFrameProcessingRef s' = false /\
    animationFrameRef s' = Some 0 /\ pending s' = [])).
Proof.
  intros frame mask sg s k e t.
  destruct (running_call_always_rearms true k e t s eq_refl) as [Hr Ht].
  split; [|exact (Ht eq_refl)].
  destruct Hr as (Hg & Hh & Hp).
  split; [exact Hg|]. split; [exact Hh|]. split; [exact Hp|reflexivity].
Defined.





(** Each stats report carries the rounded mean of the FPS window as the
    call leaves it and the rounded processing time of that call; a call
    reports at most once. *)
Theorem stats_report_is_window_mean (k : suspended) (e : ResumeEnv)
    (s : state) :
  let s' := resume true k e s in
  stats s' = stats s \/
  stats s'
  = {| fps := Math_round (average (fpsCounterRef s'));
       processingTime := Math_round (endTime e - startTime k) |} :: stats s.
Proof.
  cbv zeta.
  destruct (resume_cases true k e s) as [[_ ->]|[_ [[op ->]| ->]]];
    [by left|..];
    match goal with
    | |- context [rearm ?t] =>
        destruct (rearm_frame t) as (_ & _ & _ & _ & _ & -> & -> & _)
    end; [|by left].
  unfold set_isFrameProcessingRef, recordStats. cbv zeta.
  destruct (0 <? _)%float; [right|left]; reflexivity.
Qed.

Lemma switch_off_stops_and_resets_aux onStatsUpdate s isVideoReady present
    e d :
  let s' := step onStatsUpdate s (Effect isVideoReady false present e d) in
  isProcessingActiveRef s' = false /\
  seg s' = Segmentation.reset (seg s).
Proof.
  cbv zeta. cbn [step]. unfold effect. cbn [negb]. rewrite !orb_true_r.
  unfold effect_cleanup, drawVideoDirectly, clearCanvases,
    requestAnimationFrame, draw. cbv zeta.
  cases; cbn; auto.
Qed.

(** Switching the effect off stops the loop and starts a new session:
    the running flag and the guard are clear, the FPS window and the
    last frame time are reset, and the session manager has been reset
    (disabled, cache empty, session id one higher). *)
Theorem switch_off_stops_and_resets (onStatsUpdate : bool) (s : state)
    (isVideoReady present : bool) (e : TickEnv) (d : DrawEnv) :
  let s' := step onStatsUpdate s (Effect isVideoReady false present e d) in
  isProcessingActiveRef s' = false /\ isFrameProcessingRef s' = false /\
  fpsCounterRef s' = [] /\ lastFrameTimeRef s' = 0%float /\
  seg s' = Segmentation.reset (seg s) /\
  pending s' = pending s /\ stats s' = stats s /\ errors s' = errors s.
Proof.
  cbv zeta. cbn [step]. unfold effect. cbn [negb]. rewrite !orb_true_r.
  unfold effect_cleanup, drawVideoDirectly, clearCanvases,
    requestAnimationFrame, draw. cbv zeta.
  cases; cbn; auto 10.
Qed.

Lemma late_step_rejected onStatsUpdate s ev :
  within_run ev = true -> isProcessingActiveRef s = false ->
  Segmentation.isProcessingEnabledRef (seg s) = false ->
  seg (step onStatsUpdate s ev) = seg s /\
  isProcessingActiveRef (step onStatsUpdate s ev) = false.
Proof.
  intros Hev Ha Hen. destruct ev as [e|ctx r|i e| |d]; try discriminate;
    cbn [step].
  - unfold processVideoFrame. rewrite Ha. cbn [negb]. by split.
  - cbn [seg set_seg]. rewrite onResults_disabled by exact Hen. by split.
  - destruct (pending s !! i) as [k|]; [|by split].
    unfold resume. cbv zeta. cbn [isProcessingActiveRef set_pending].
    rewrite Ha. cbn. by split.
  - unfold drawVideoDirectly, requestAnimationFrame, draw.
    destruct (drawPlaying d), (drawContext d); cbn; by split.
Qed.

(** After the effect is switched off, no mask delivered late is taken:
    through every later animation-frame callback of either loop, provider
    callback and resuming call, the session manager stays disabled with an
    empty cache, and its session id is the old one with the one [+= 1]
    of the switch-off applied. *)
Theorem switched_off_rejects_late_masks (onStatsUpdate : bool)
    (trace : list event) (s : state) (isVideoReady present : bool)
    (e : TickEnv) (d : DrawEnv) :
  forallb within_run trace = true ->
  let s' := run onStatsUpdate
              (step onStatsUpdate s (Effect isVideoReady false present e d))
              trace in
  Segmentation.latestResultRef (seg s') = None /\
  Segmentation.isProcessingEnabledRef (seg s') = false /\
  Segmentation.sessionIdRef (seg s')
  = (Segmentation.sessionIdRef (seg s) + 1)%float.
Proof.
  intros Htr.
  destruct (switch_off_stops_and_resets_aux onStatsUpdate s isVideoReady
              present e d) as (Ha & Hs).
  set (s0 := step onStatsUpdate s (Effect isVideoReady false present e d))
    in *.
  assert (H : forall t, isProcessingActiveRef t = false ->
            Segmentation.isProcessingEnabledRef (seg t) = false ->
            seg (run onStatsUpdate t trace) = seg t).
  { clear Ha Hs. induction trace as [|ev trace IH]; intros t Ha Hen;
      [reflexivity|].
    cbn in Htr. apply andb_prop in Htr as [Hev Htr].
    destruct (late_step_rejected onStatsUpdate t ev Hev Ha Hen) as [Hsg Ha'].
    change (seg (run onStatsUpdate (step onStatsUpdate t ev) trace) = seg t).
    rewrite (IH Htr _ Ha') by (by rewrite Hsg).
    exact Hsg. }
  cbv zeta. rewrite H, Hs by (done || by rewrite Hs). by split.
Qed.

Lemma switched_off_rejects_late_masks_witness :
  let frame := {| width := 1; height := 1;
                  data := [xc8; x64; x32; xff] |} in
  let tick := {| videoPlaying := true; contexts := true;
                 capture := Some frame; tickTime := 10%float |} in
  let direct := {| drawPlaying := true; drawContext := true;
                   drawVideo := frame |} in
  let s := step true
             (mounted (Segmentation.initializeSegmentation
                         Segmentation.mounted))
             (Effect true true true tick direct) in
  let s' := run true (step true s (Effect true false true tick direct))
              [Results true {| Segmentation.segmentationMask := Some frame |};
               Draw direct;
               Resume 0 {| sendOk := true; video := frame;
                           endTime := 20%float; now := 21%float |}] in
  Segmentation.latestResultRef (seg s') = None /\
  Segmentation.isProcessingEnabledRef (seg s') = false /\
  Segmentation.sessionIdRef (seg s') = 1%float.
Proof.
  intros frame tick direct s.
  apply (switched_off_rejects_late_masks true
           [Results true {| Segmentation.segmentationMask := Some frame |};
            Draw direct;
            Resume 0 {| sendOk := true; video := frame;
                        endTime := 20%float; now := 21%float |}]
           s true true tick direct).
  reflexivity.
Defined.

(** The effect starts nothing before the video's metadata and the model
    are both there: the running flag stays clear, no call is suspended
    and no session is enabled. *)
Theorem effect_waits_for_video_and_model (onStatsUpdate : bool) (s : state)
    (isVideoReady effectEnabled present : bool) (e : TickEnv) (d : DrawEnv) :
  isVideoReady && Segmentation.isModelLoaded (seg s) = false ->
  let s' := step onStatsUpdate s
              (Effect isVideoReady effectEnabled present e d) in
  isProcessingActiveRef s' = false /\ isFrameProcessingRef s' = false /\
  pending s' = pending s /\
  seg s' = (if effectEnabled then seg s else Segmentation.reset (seg s)).
Proof.
  intros Hready. cbv zeta. cbn [step]. unfold effect.
  assert (Hseg : seg (effect_cleanup s) = seg s)
    by (unfold effect_cleanup; cbv zeta; cases; reflexivity).
  rewrite Hseg.
  assert (negb isVideoReady || negb (Segmentation.isModelLoaded (seg s))
          = true) as ->.
  { destruct isVideoReady, (Segmentation.isModelLoaded (seg s));
      done. }
  cbn [orb].
  unfold effect_cleanup, drawVideoDirectly, clearCanvases,
    requestAnimationFrame, draw. cbv zeta.
  destruct effectEnabled; cbv iota; cbn [negb andb]; rewrite ?andb_false_r;
    cbv iota; cases; cbn; auto.
Qed.

Lemma effect_waits_for_video_and_model_witness :
  let frame := {| width := 1; height := 1;
                  data := [xc8; x64; x32; xff] |} in
  let tick := {| videoPlaying := true; contexts := true;
                 capture := Some frame; tickTime := 10%float |} in
  let direct := {| drawPlaying := true; drawContext := true;
                   drawVideo := frame |} in
  let s := mounted Segmentation.mounted in
  let s' := step true s (Effect true true true tick direct) in
  isProcessingActiveRef s' = false /\ isFrameProcessingRef s' = false /\
  pending s' = [] /\ seg s' = Segmentation.mounted.
Proof.
  intros frame tick direct s.
  apply (effect_waits_for_video_and_model true s true true true tick direct).
  reflexivity.
Defined.

End SchedulerExtras.
